(** * Aetheria: the entity model, the top-down view and the database schema

    A shallow embedding of the Python sources

      - [model/test.py]               (module [Model]),
      - [view/topdown.py]             (module [TopDown]),
      - [infra/database/models.py]    (module [Models]),

    with the numbers of Python (unbounded [int], binary64 [float]) in module
    [Py].  The operations the specification builds on the tables (reading
    the log, capturing a snapshot, reconstructing a state) have no source;
    module [Engine] states them from the specification.  Definitions come
    first, theorems after them. *)

From Stdlib Require Import ZArith NArith List String Ascii Bool Lia Sorted
  Permutation.
From Stdlib Require Import Floats.SpecFloat.
Import ListNotations.

Local Open Scope string_scope.
Local Open Scope Z_scope.

(** ** Results

    A call returns a value or fails with an error of type [E]. *)

Definition result (E A : Type) : Type := (E + A)%type.

Definition Ok {E A : Type} (a : A) : result E A := inr a.

Definition Err {E A : Type} (e : E) : result E A := inl e.

Definition bind {E A B : Type} (m : result E A) (k : A -> result E B)
  : result E B :=
  match m with
  | inl e => inl e
  | inr a => k a
  end.

Notation "x <- m ;; k" := (bind m (fun x => k))
  (at level 61, m at next level, right associativity).

Notation "m ;; k" := (bind m (fun _ => k))
  (at level 61, right associativity).

(** [check ok e]: go on when [ok] holds, fail with [e] otherwise. *)
Definition check {E : Type} (ok : bool) (e : E) : result E unit :=
  if ok then Ok tt else Err e.

(** ** Python numbers *)

Module Py.

(** The exceptions the arithmetic of the modelled code can raise. *)
Inductive exn : Type :=
| ZeroDivisionError
| OverflowError.

(** A computation that returns or raises. *)
Definition M (A : Type) : Type := result exn A.

Definition ret {A : Type} (a : A) : M A := Ok a.

Definition raise {A : Type} (e : exn) : M A := Err e.

(** binary64, as [float] is in CPython. *)
Definition prec : Z := 53.
Definition emax : Z := 1024.

Definition float : Type := spec_float.

(** An [int] has any size; a [float] is a binary64 value. *)
Inductive number : Type :=
| PyInt (z : Z)
| PyFloat (f : float).

(** [float(z)]: the nearest binary64 value, ties to even; an [int] beyond the
    range of binary64 raises [OverflowError]. *)
Definition float_of_int (z : Z) : M float :=
  match binary_normalize prec emax z 0 false with
  | S754_infinity _ => raise OverflowError
  | f => ret f
  end.

Definition to_float (n : number) : M float :=
  match n with
  | PyInt z => float_of_int z
  | PyFloat f => ret f
  end.

(** [a + b], [a - b], [a * b]: exact on two ints; otherwise both operands are
    converted to [float] and the binary64 operation is applied. *)
Definition arith (fz : Z -> Z -> Z) (ff : float -> float -> float)
  (a b : number) : M number :=
  match a, b with
  | PyInt x, PyInt y => ret (PyInt (fz x y))
  | _, _ =>
      x <- to_float a ;;
      y <- to_float b ;;
      ret (PyFloat (ff x y))
  end.

Definition add : number -> number -> M number := arith Z.add (SFadd prec emax).
Definition sub : number -> number -> M number := arith Z.sub (SFsub prec emax).
Definition mul : number -> number -> M number := arith Z.mul (SFmul prec emax).

Definition is_zero (f : float) : bool :=
  match f with
  | S754_zero _ => true
  | _ => false
  end.

(** [x / y] on two ints: the correctly rounded quotient of the exact integers. *)
Definition int_truediv (x y : Z) : M float :=
  if y =? 0 then raise ZeroDivisionError
  else if x =? 0 then ret (S754_zero (y <? 0))
  else
    let '(mz, ez, lz) :=
      SFdiv_core_binary prec emax (Z.abs x) 0 (Z.abs y) 0 in
    match binary_round_aux prec emax (xorb (x <? 0) (y <? 0)) mz ez lz with
    | S754_infinity _ => raise OverflowError
    | f => ret f
    end.

(** [a / b]: true division; a zero divisor raises [ZeroDivisionError]. *)
Definition truediv (a b : number) : M float :=
  match a, b with
  | PyInt x, PyInt y => int_truediv x y
  | _, _ =>
      x <- to_float a ;;
      y <- to_float b ;;
      if is_zero y then raise ZeroDivisionError
      else ret (SFdiv prec emax x y)
  end.

(** [min(a, b)] on floats: [b] when [b < a], otherwise [a]. *)
Definition fmin (a b : float) : float := if SFltb b a then b else a.

(** [a < b] on numbers of one kind. *)
Definition ltb (a b : number) : bool :=
  match a, b with
  | PyInt x, PyInt y => x <? y
  | PyFloat x, PyFloat y => SFltb x y
  | _, _ => false
  end.

(** The literal [0.1]. *)
Definition float_0_1 : float := S754_finite false 7205759403792794 (-56).

End Py.

(** ** model/test.py *)

Module Model.

(** What a bag holds is not fixed by the source; items are named here. *)
Definition item : Type := string.

(** [class Entity]. *)
Record Entity : Type := mkEntity {
  e_entity_id : Z;
  e_name : string;
  e_x : Z;
  e_y : Z
}.

(** [class InteractiveEntity(Entity, Researchable)]. *)
Record InteractiveEntity : Type := mkInteractiveEntity {
  i_entity_id : Z;
  i_name : string;
  i_x : Z;
  i_y : Z;
  i_durability : Z
}.

(** [class Agent(Entity, Moveable, Edible)]. *)
Record Agent : Type := mkAgent {
  entity_id : Z;
  name : string;
  x : Z;
  y : Z;
  gender : string;
  health : Z;
  years : Z;
  bag : list item
}.

Definition set_x (a : Agent) (v : Z) : Agent :=
  mkAgent (entity_id a) (name a) v (y a) (gender a) (health a) (years a) (bag a).

Definition set_y (a : Agent) (v : Z) : Agent :=
  mkAgent (entity_id a) (name a) (x a) v (gender a) (health a) (years a) (bag a).

(** [Agent.move(self, actor, direction)]: the agent after the call.  The
    [actor] is not read. *)
Definition move {A : Type} (self : Agent) (actor : A) (direction : string) : Agent :=
  if String.eqb direction "up" then set_y self (y self + 1)
  else if String.eqb direction "down" then set_y self (y self - 1)
  else if String.eqb direction "left" then set_x self (x self - 1)
  else if String.eqb direction "right" then set_x self (x self + 1)
  else self.

End Model.

(** ** view/topdown.py *)

Module TopDown.

Import Py.

(** What [show] is given: instances of the three classes of the model. *)
Inductive entity : Type :=
| AnEntity (e : Model.Entity)
| AnInteractiveEntity (e : Model.InteractiveEntity)
| AnAgent (a : Model.Agent).

Definition x_of (e : entity) : Z :=
  match e with
  | AnEntity e => Model.e_x e
  | AnInteractiveEntity e => Model.i_x e
  | AnAgent a => Model.x a
  end.

Definition y_of (e : entity) : Z :=
  match e with
  | AnEntity e => Model.e_y e
  | AnInteractiveEntity e => Model.i_y e
  | AnAgent a => Model.y a
  end.

(** [entity.__class__.__name__]. *)
Definition class_name (e : entity) : string :=
  match e with
  | AnEntity _ => "Entity"
  | AnInteractiveEntity _ => "InteractiveEntity"
  | AnAgent _ => "Agent"
  end.

(** [class TopDownVisualizer]: the fields [__init__] sets. *)
Record TopDownVisualizer : Type := mkVisualizer {
  width : Z;
  height : Z;
  margin : number;
  scale : option float;
  offset_x : Z;
  offset_y : Z
}.

(** [TopDownVisualizer(width=800, height=600, margin=0.1)]. *)
Definition init (width height : Z) (margin : number) : TopDownVisualizer :=
  mkVisualizer width height margin None 0 0.

Definition default : TopDownVisualizer := init 800 600 (PyFloat float_0_1).

Definition COLOR_MAP : list (string * string) :=
  [("Agent", "#E53935"); ("InteractiveEntity", "#1E88E5"); ("Entity", "#9E9E9E")].

Fixpoint lookup (k : string) (m : list (string * string)) : option string :=
  match m with
  | [] => None
  | (k', v) :: m' => if String.eqb k k' then Some v else lookup k m'
  end.

Definition entity_color (self : TopDownVisualizer) (e : entity) : string :=
  match lookup (class_name e) COLOR_MAP with
  | Some c => c
  | None => "#777777"
  end.

(** [min(xs)] and [max(xs)] of a list of ints that starts with [h]. *)
Definition min_list (h : Z) (t : list Z) : Z := fold_left Z.min t h.
Definition max_list (h : Z) (t : list Z) : Z := fold_left Z.max t h.

(** The two statements [if lo == hi: lo -= 1; hi += 1]. *)
Definition widen (lo hi : Z) : Z * Z :=
  if lo =? hi then (lo - 1, hi + 1) else (lo, hi).

Definition bounds : Type := number * number * number * number.

(** [compute_bounds(self, entities)]. *)
Definition compute_bounds (self : TopDownVisualizer) (entities : list entity)
  : M bounds :=
  match entities with
  | [] => ret (PyInt 0, PyInt 10, PyInt 0, PyInt 10)
  | e :: es =>
      let xs := map x_of es in
      let ys := map y_of es in
      let '(min_x, max_x) := widen (min_list (x_of e) xs) (max_list (x_of e) xs) in
      let '(min_y, max_y) := widen (min_list (y_of e) ys) (max_list (y_of e) ys) in
      let dx := max_x - min_x in
      let dy := max_y - min_y in
      mx <- mul (PyInt dx) (margin self) ;;
      min_x' <- sub (PyInt min_x) mx ;;
      mx' <- mul (PyInt dx) (margin self) ;;
      max_x' <- add (PyInt max_x) mx' ;;
      my <- mul (PyInt dy) (margin self) ;;
      min_y' <- sub (PyInt min_y) my ;;
      my' <- mul (PyInt dy) (margin self) ;;
      max_y' <- add (PyInt max_y) my' ;;
      ret (min_x', max_x', min_y', max_y')
  end.

(** [world_to_screen(self, x, y, bounds)]: the visualizer with its [scale]
    set, and the pixel. *)
Definition world_to_screen (self : TopDownVisualizer) (x y : Z) (b : bounds)
  : M (TopDownVisualizer * (number * number)) :=
  let '(min_x, max_x, min_y, max_y) := b in
  world_w <- sub max_x min_x ;;
  world_h <- sub max_y min_y ;;
  scale_x <- truediv (PyInt (width self - 20)) world_w ;;
  scale_y <- truediv (PyInt (height self - 20)) world_h ;;
  let scale := fmin scale_x scale_y in
  let self' :=
    mkVisualizer (width self) (height self) (margin self) (Some scale)
      (offset_x self) (offset_y self) in
  ax <- sub (PyInt x) min_x ;;
  sx <- mul ax (PyFloat scale) ;;
  px <- add sx (PyInt 10) ;;
  ay <- sub (PyInt y) min_y ;;
  sy <- mul ay (PyFloat scale) ;;
  hy <- sub (PyInt (height self)) sy ;;
  py <- sub hy (PyInt 10) ;;
  ret (self', (px, py)).

End TopDown.

(** ** infra/database/models.py

    The module declares tables, not functions: what it fixes is which rows a
    table accepts (column types, [nullable], primary keys, [UniqueConstraint],
    [CheckConstraint], [ForeignKey]), the value a column takes when the writer
    gives none ([default=]) and what the deletion of a referenced row does to
    the rows that reference it ([ondelete=]).  A store is one list of rows per
    table; inserting and deleting rows are functions on stores that apply
    those declarations. *)

Module Models.

(** [uuid.UUID]: an opaque identifier. *)
Definition uuid : Type := N.
Bind Scope N_scope with uuid.

(** A JSON document, serialized. *)
Definition json : Type := string.

(** [DateTime(timezone=True)]: an instant. *)
Definition datetime : Type := Z.

(** [Float]: binary64. *)
Definition float : Type := spec_float.

(** *** Column types *)

(** [Integer] is a signed 32-bit column, [BigInteger] a signed 64-bit one and
    [String(n)] holds at most [n] characters; a value outside is refused. *)
Definition Integer (z : Z) : bool := (- 2 ^ 31 <=? z) && (z <? 2 ^ 31).
Definition BigInteger (z : Z) : bool := (- 2 ^ 63 <=? z) && (z <? 2 ^ 63).
Definition String_ (n : nat) (s : string) : bool := (String.length s <=? n)%nat.

(** A nullable column holds [None] or a value of the column's type. *)
Definition nullable {A : Type} (ty : A -> bool) (o : option A) : bool :=
  match o with
  | None => true
  | Some a => ty a
  end.

(** [default=]: the value of a column the writer left out. *)
Definition default {A : Type} (d : A) (o : option A) : A :=
  match o with
  | None => d
  | Some a => a
  end.

(** *** class World, table [worlds] *)

Module World.

Record t : Type := mk {
  world_id : uuid;
  name : option string;
  seed : Z;
  generator_version : string;
  current_tick : Z;
  tick_unit_ms : Z;
  status : string;
  created_at : datetime
}.

(** [World(...)] as the insert sees it: the primary key (drawn by
    [uuid.uuid4] unless given) and the server's clock are arguments, the
    columns with a [default=] are optional. *)
Definition new (world_id : uuid) (name : option string) (seed : Z)
  (generator_version : string) (current_tick tick_unit_ms : option Z)
  (status : option string) (now : datetime) : t :=
  mk world_id name seed generator_version (default 0 current_tick)
    (default 60000 tick_unit_ms) (default "CREATED" status) now.

Definition well_typed (w : t) : bool :=
  nullable (String_ 120) (name w) && BigInteger (seed w)
  && String_ 64 (generator_version w) && BigInteger (current_tick w)
  && Integer (tick_unit_ms w) && String_ 16 (status w).

End World.

(** *** class WorldTile, table [world_tiles] *)

Module WorldTile.

Record t : Type := mk {
  world_id : uuid;
  x : Z;
  y : Z;
  terrain_type : Z;
  is_blocked : bool;
  resource_type : Z;
  resource_amount : Z;
  meta_json : option json
}.

Definition new (world_id : uuid) (x y terrain_type : Z)
  (is_blocked : option bool) (resource_type resource_amount : option Z)
  (meta_json : option json) : t :=
  mk world_id x y terrain_type (default false is_blocked)
    (default 0 resource_type) (default 0 resource_amount) meta_json.

(** The primary key [(world_id, x, y)]. *)
Definition pk (r : t) : uuid * Z * Z := (world_id r, x r, y r).

Definition well_typed (r : t) : bool :=
  Integer (x r) && Integer (y r) && Integer (terrain_type r)
  && Integer (resource_type r) && Integer (resource_amount r).

End WorldTile.

(** *** class WorldMap, table [world_maps] *)

Module WorldMap.

Record t : Type := mk {
  world_id : uuid;
  format : string;
  width : Z;
  height : Z;
  data_blob : list Byte.byte;
  checksum : string
}.

Definition new (world_id : uuid) (format : option string) (width height : Z)
  (data_blob : list Byte.byte) (checksum : string) : t :=
  mk world_id (default "zstd+msgpack" format) width height data_blob checksum.

Definition well_typed (r : t) : bool :=
  String_ 32 (format r) && Integer (width r) && Integer (height r)
  && String_ 64 (checksum r).

End WorldMap.

(** *** class Agent, table [agents] *)

Module Agent.

Record t : Type := mk {
  agent_id : uuid;
  world_id : uuid;
  name : string;
  sex : Z;
  birth_tick : Z;
  death_tick : option Z;
  x : Z;
  y : Z;
  state_json : json;
  personality_json : option json;
  created_at : datetime
}.

Definition new (agent_id world_id : uuid) (name : string)
  (sex birth_tick : option Z) (death_tick : option Z) (x y : option Z)
  (state_json : json) (personality_json : option json) (now : datetime) : t :=
  mk agent_id world_id name (default 0 sex) (default 0 birth_tick) death_tick
    (default 0 x) (default 0 y) state_json personality_json now.

Definition well_typed (r : t) : bool :=
  String_ 120 (name r) && Integer (sex r) && BigInteger (birth_tick r)
  && nullable BigInteger (death_tick r) && Integer (x r) && Integer (y r).

End Agent.

(** *** class Relationship, table [relationships] *)

Module Relationship.

Record t : Type := mk {
  world_id : uuid;
  a_agent_id : uuid;
  b_agent_id : uuid;
  affinity : float;
  trust : float;
  hostility : float;
  familiarity : float;
  last_tick : Z;
  meta_json : option json
}.

Definition zero : float := S754_zero false.

Definition new (world_id a_agent_id b_agent_id : uuid)
  (affinity trust hostility familiarity : option float) (last_tick : option Z)
  (meta_json : option json) : t :=
  mk world_id a_agent_id b_agent_id (default zero affinity)
    (default zero trust) (default zero hostility) (default zero familiarity)
    (default 0 last_tick) meta_json.

(** The primary key [(world_id, a_agent_id, b_agent_id)]: the pair of agents
    is ordered. *)
Definition pk (r : t) : uuid * uuid * uuid :=
  (world_id r, a_agent_id r, b_agent_id r).

Definition well_typed (r : t) : bool := BigInteger (last_tick r).

End Relationship.

(** *** class EventStore, table [event_store] *)

Module EventStore.

Record t : Type := mk {
  event_id : uuid;
  world_id : uuid;
  tick : Z;
  seq_in_tick : Z;
  event_type : string;
  actor_agent_id : option uuid;
  target_agent_id : option uuid;
  x : option Z;
  y : option Z;
  payload_json : json;
  caused_by_event_id : option uuid;
  schema_version : Z;
  created_at : datetime
}.

Definition new (event_id world_id : uuid) (tick : Z) (seq_in_tick : option Z)
  (event_type : string) (actor_agent_id target_agent_id : option uuid)
  (x y : option Z) (payload_json : json) (caused_by_event_id : option uuid)
  (schema_version : option Z) (now : datetime) : t :=
  mk event_id world_id tick (default 0 seq_in_tick) event_type actor_agent_id
    target_agent_id x y payload_json caused_by_event_id
    (default 1 schema_version) now.

(** The columns of [uq_events_tick_seq]. *)
Definition uq_events_tick_seq (e : t) : uuid * Z * Z :=
  (world_id e, tick e, seq_in_tick e).

(** [ck_events_seq_nonneg]. *)
Definition ck_events_seq_nonneg (e : t) : bool := 0 <=? seq_in_tick e.

Definition well_typed (e : t) : bool :=
  BigInteger (tick e) && Integer (seq_in_tick e) && String_ 64 (event_type e)
  && nullable Integer (x e) && nullable Integer (y e)
  && Integer (schema_version e).

Definition set_actor_agent_id (e : t) (v : option uuid) : t :=
  mk (event_id e) (world_id e) (tick e) (seq_in_tick e) (event_type e) v
    (target_agent_id e) (x e) (y e) (payload_json e) (caused_by_event_id e)
    (schema_version e) (created_at e).

Definition set_target_agent_id (e : t) (v : option uuid) : t :=
  mk (event_id e) (world_id e) (tick e) (seq_in_tick e) (event_type e)
    (actor_agent_id e) v (x e) (y e) (payload_json e) (caused_by_event_id e)
    (schema_version e) (created_at e).

Definition set_caused_by_event_id (e : t) (v : option uuid) : t :=
  mk (event_id e) (world_id e) (tick e) (seq_in_tick e) (event_type e)
    (actor_agent_id e) (target_agent_id e) (x e) (y e) (payload_json e) v
    (schema_version e) (created_at e).

End EventStore.

(** *** class Snapshot, table [snapshots] *)

Module Snapshot.

Record t : Type := mk {
  snapshot_id : uuid;
  world_id : uuid;
  tick : Z;
  world_state_json : json;
  map_ref : option string;
  created_at : datetime
}.

(** The columns of [uq_snapshot_world_tick]. *)
Definition uq_snapshot_world_tick (s : t) : uuid * Z := (world_id s, tick s).

Definition well_typed (s : t) : bool :=
  BigInteger (tick s) && nullable (String_ 128) (map_ref s).

End Snapshot.

(** *** class AgentSnapshot, table [agent_snapshots] *)

Module AgentSnapshot.

Record t : Type := mk {
  snapshot_id : uuid;
  agent_id : uuid;
  agent_state_json : json
}.

(** The primary key [(snapshot_id, agent_id)]. *)
Definition pk (r : t) : uuid * uuid := (snapshot_id r, agent_id r).

End AgentSnapshot.

(** *** The store *)

(** One list of rows per [__tablename__]. *)
Record DB : Type := mkDB {
  worlds : list World.t;
  world_tiles : list WorldTile.t;
  world_maps : list WorldMap.t;
  agents : list Agent.t;
  relationships : list Relationship.t;
  event_store : list EventStore.t;
  snapshots : list Snapshot.t;
  agent_snapshots : list AgentSnapshot.t
}.

Definition empty : DB := mkDB [] [] [] [] [] [] [] [].

(** What a refused statement reports.  The source names no error: the names
    are the ones of the specification's error taxonomy, each carrying the
    name of the column or constraint that refused the row. *)
Inductive error : Type :=
| DataError (column_types : string)
| CheckViolation (constraint : string)
| AlreadyExists (constraint : string)
| ReferentialIntegrity (foreign_key : string)
| NotFound
| SchemaMismatch
| CorruptSnapshot.

(** Equality of keys. *)
Definition eqb2 (k1 k2 : uuid * uuid) : bool :=
  (fst k1 =? fst k2)%N && (snd k1 =? snd k2)%N.

Definition eqb3 (k1 k2 : uuid * uuid * uuid) : bool :=
  eqb2 (fst k1) (fst k2) && (snd k1 =? snd k2)%N.

Definition eqb_uz (k1 k2 : uuid * Z) : bool :=
  (fst k1 =? fst k2)%N && (snd k1 =? snd k2).

Definition eqb_uzz (k1 k2 : uuid * Z * Z) : bool :=
  eqb_uz (fst k1) (fst k2) && (snd k1 =? snd k2).

(** [mem eqb k ks]: the key [k] is one of [ks]. *)
Definition mem {K : Type} (eqb : K -> K -> bool) (k : K) (ks : list K) : bool :=
  existsb (eqb k) ks.

Definition world_ids (db : DB) : list uuid := map World.world_id (worlds db).
Definition agent_ids (db : DB) : list uuid := map Agent.agent_id (agents db).
Definition event_ids (db : DB) : list uuid :=
  map EventStore.event_id (event_store db).
Definition snapshot_ids (db : DB) : list uuid :=
  map Snapshot.snapshot_id (snapshots db).

(** *** INSERT

    A row is checked in the order the database checks it: the column types,
    the CHECK constraints, the primary key and the unique constraints, and
    last the foreign keys. *)

Definition insert_world (db : DB) (w : World.t) : result error DB :=
  check (World.well_typed w) (DataError "worlds") ;;
  check (negb (mem N.eqb (World.world_id w) (world_ids db)))
    (AlreadyExists "worlds_pkey") ;;
  Ok (mkDB (w :: worlds db) (world_tiles db) (world_maps db) (agents db)
        (relationships db) (event_store db) (snapshots db) (agent_snapshots db)).

Definition insert_world_tile (db : DB) (r : WorldTile.t) : result error DB :=
  check (WorldTile.well_typed r) (DataError "world_tiles") ;;
  check (negb (mem eqb_uzz (WorldTile.pk r) (map WorldTile.pk (world_tiles db))))
    (AlreadyExists "world_tiles_pkey") ;;
  check (mem N.eqb (WorldTile.world_id r) (world_ids db))
    (ReferentialIntegrity "world_tiles.world_id") ;;
  Ok (mkDB (worlds db) (r :: world_tiles db) (world_maps db) (agents db)
        (relationships db) (event_store db) (snapshots db) (agent_snapshots db)).

Definition insert_world_map (db : DB) (r : WorldMap.t) : result error DB :=
  check (WorldMap.well_typed r) (DataError "world_maps") ;;
  check (negb (mem N.eqb (WorldMap.world_id r)
                 (map WorldMap.world_id (world_maps db))))
    (AlreadyExists "world_maps_pkey") ;;
  check (mem N.eqb (WorldMap.world_id r) (world_ids db))
    (ReferentialIntegrity "world_maps.world_id") ;;
  Ok (mkDB (worlds db) (world_tiles db) (r :: world_maps db) (agents db)
        (relationships db) (event_store db) (snapshots db) (agent_snapshots db)).

Definition insert_agent (db : DB) (r : Agent.t) : result error DB :=
  check (Agent.well_typed r) (DataError "agents") ;;
  check (negb (mem N.eqb (Agent.agent_id r) (agent_ids db)))
    (AlreadyExists "agents_pkey") ;;
  check (mem N.eqb (Agent.world_id r) (world_ids db))
    (ReferentialIntegrity "agents.world_id") ;;
  Ok (mkDB (worlds db) (world_tiles db) (world_maps db) (r :: agents db)
        (relationships db) (event_store db) (snapshots db) (agent_snapshots db)).

Definition insert_relationship (db : DB) (r : Relationship.t)
  : result error DB :=
  check (Relationship.well_typed r) (DataError "relationships") ;;
  check (negb (mem eqb3 (Relationship.pk r)
                 (map Relationship.pk (relationships db))))
    (AlreadyExists "relationships_pkey") ;;
  check (mem N.eqb (Relationship.world_id r) (world_ids db))
    (ReferentialIntegrity "relationships.world_id") ;;
  check (mem N.eqb (Relationship.a_agent_id r) (agent_ids db))
    (ReferentialIntegrity "relationships.a_agent_id") ;;
  check (mem N.eqb (Relationship.b_agent_id r) (agent_ids db))
    (ReferentialIntegrity "relationships.b_agent_id") ;;
  Ok (mkDB (worlds db) (world_tiles db) (world_maps db) (agents db)
        (r :: relationships db) (event_store db) (snapshots db)
        (agent_snapshots db)).

(** A nullable foreign key is checked when it is not NULL. *)
Definition references (o : option uuid) (ids : list uuid) : bool :=
  match o with
  | None => true
  | Some k => mem N.eqb k ids
  end.

Definition insert_event (db : DB) (e : EventStore.t) : result error DB :=
  check (EventStore.well_typed e) (DataError "event_store") ;;
  check (EventStore.ck_events_seq_nonneg e)
    (CheckViolation "ck_events_seq_nonneg") ;;
  check (negb (mem N.eqb (EventStore.event_id e) (event_ids db)))
    (AlreadyExists "event_store_pkey") ;;
  check (negb (mem eqb_uzz (EventStore.uq_events_tick_seq e)
                 (map EventStore.uq_events_tick_seq (event_store db))))
    (AlreadyExists "uq_events_tick_seq") ;;
  check (mem N.eqb (EventStore.world_id e) (world_ids db))
    (ReferentialIntegrity "event_store.world_id") ;;
  check (references (EventStore.actor_agent_id e) (agent_ids db))
    (ReferentialIntegrity "event_store.actor_agent_id") ;;
  check (references (EventStore.target_agent_id e) (agent_ids db))
    (ReferentialIntegrity "event_store.target_agent_id") ;;
  check (references (EventStore.caused_by_event_id e)
           (EventStore.event_id e :: event_ids db))
    (ReferentialIntegrity "event_store.caused_by_event_id") ;;
  Ok (mkDB (worlds db) (world_tiles db) (world_maps db) (agents db)
        (relationships db) (e :: event_store db) (snapshots db)
        (agent_snapshots db)).

Definition insert_snapshot (db : DB) (s : Snapshot.t) : result error DB :=
  check (Snapshot.well_typed s) (DataError "snapshots") ;;
  check (negb (mem N.eqb (Snapshot.snapshot_id s) (snapshot_ids db)))
    (AlreadyExists "snapshots_pkey") ;;
  check (negb (mem eqb_uz (Snapshot.uq_snapshot_world_tick s)
                 (map Snapshot.uq_snapshot_world_tick (snapshots db))))
    (AlreadyExists "uq_snapshot_world_tick") ;;
  check (mem N.eqb (Snapshot.world_id s) (world_ids db))
    (ReferentialIntegrity "snapshots.world_id") ;;
  Ok (mkDB (worlds db) (world_tiles db) (world_maps db) (agents db)
        (relationships db) (event_store db) (s :: snapshots db)
        (agent_snapshots db)).

Definition insert_agent_snapshot (db : DB) (r : AgentSnapshot.t)
  : result error DB :=
  check (negb (mem eqb2 (AgentSnapshot.pk r)
                 (map AgentSnapshot.pk (agent_snapshots db))))
    (AlreadyExists "agent_snapshots_pkey") ;;
  check (mem N.eqb (AgentSnapshot.snapshot_id r) (snapshot_ids db))
    (ReferentialIntegrity "agent_snapshots.snapshot_id") ;;
  check (mem N.eqb (AgentSnapshot.agent_id r) (agent_ids db))
    (ReferentialIntegrity "agent_snapshots.agent_id") ;;
  Ok (mkDB (worlds db) (world_tiles db) (world_maps db) (agents db)
        (relationships db) (event_store db) (snapshots db)
        (r :: agent_snapshots db)).

(** *** DELETE

    Deleting rows of a table that others reference applies, to each
    referencing column, the action its [ForeignKey] declares:
    [ondelete="CASCADE"] deletes the referencing row, [ondelete="SET NULL"]
    keeps it and stores NULL in the column. *)

(** [ondelete="SET NULL"]: the column after the rows with a key in [gone]
    are deleted. *)
Definition set_null (gone : list uuid) (o : option uuid) : option uuid :=
  match o with
  | None => None
  | Some k => if mem N.eqb k gone then None else Some k
  end.

(** [ondelete="CASCADE"]: a row referencing [k] stays when [k] is not deleted. *)
Definition kept (gone : list uuid) (k : uuid) : bool := negb (mem N.eqb k gone).

(** Delete the agents that satisfy [p].  [relationships.a_agent_id],
    [relationships.b_agent_id] and [agent_snapshots.agent_id] cascade;
    [event_store.actor_agent_id] and [event_store.target_agent_id] are set
    to NULL. *)
Definition delete_agents_where (p : Agent.t -> bool) (db : DB) : DB :=
  let gone := map Agent.agent_id (filter p (agents db)) in
  mkDB (worlds db) (world_tiles db) (world_maps db)
    (filter (fun a => negb (p a)) (agents db))
    (filter (fun r => kept gone (Relationship.a_agent_id r)
                      && kept gone (Relationship.b_agent_id r))
       (relationships db))
    (map (fun e =>
            EventStore.set_target_agent_id
              (EventStore.set_actor_agent_id e
                 (set_null gone (EventStore.actor_agent_id e)))
              (set_null gone (EventStore.target_agent_id e)))
       (event_store db))
    (snapshots db)
    (filter (fun r => kept gone (AgentSnapshot.agent_id r)) (agent_snapshots db)).

(** Delete the events that satisfy [p].  [event_store.caused_by_event_id] of
    the events that stay is set to NULL where it named a deleted event. *)
Definition delete_events_where (p : EventStore.t -> bool) (db : DB) : DB :=
  let gone := map EventStore.event_id (filter p (event_store db)) in
  mkDB (worlds db) (world_tiles db) (world_maps db) (agents db)
    (relationships db)
    (map (fun e =>
            EventStore.set_caused_by_event_id e
              (set_null gone (EventStore.caused_by_event_id e)))
       (filter (fun e => negb (p e)) (event_store db)))
    (snapshots db) (agent_snapshots db).

(** Delete the snapshots that satisfy [p].  [agent_snapshots.snapshot_id]
    cascades. *)
Definition delete_snapshots_where (p : Snapshot.t -> bool) (db : DB) : DB :=
  let gone := map Snapshot.snapshot_id (filter p (snapshots db)) in
  mkDB (worlds db) (world_tiles db) (world_maps db) (agents db)
    (relationships db) (event_store db)
    (filter (fun s => negb (p s)) (snapshots db))
    (filter (fun r => kept gone (AgentSnapshot.snapshot_id r))
       (agent_snapshots db)).

(** Rows of the tables no other table references. *)
Definition delete_world_tiles_where (p : WorldTile.t -> bool) (db : DB) : DB :=
  mkDB (worlds db) (filter (fun r => negb (p r)) (world_tiles db))
    (world_maps db) (agents db) (relationships db) (event_store db)
    (snapshots db) (agent_snapshots db).

Definition delete_world_maps_where (p : WorldMap.t -> bool) (db : DB) : DB :=
  mkDB (worlds db) (world_tiles db)
    (filter (fun r => negb (p r)) (world_maps db)) (agents db)
    (relationships db) (event_store db) (snapshots db) (agent_snapshots db).

Definition delete_relationships_where (p : Relationship.t -> bool) (db : DB)
  : DB :=
  mkDB (worlds db) (world_tiles db) (world_maps db) (agents db)
    (filter (fun r => negb (p r)) (relationships db)) (event_store db)
    (snapshots db) (agent_snapshots db).

Definition delete_agent_snapshots_where (p : AgentSnapshot.t -> bool) (db : DB)
  : DB :=
  mkDB (worlds db) (world_tiles db) (world_maps db) (agents db)
    (relationships db) (event_store db) (snapshots db)
    (filter (fun r => negb (p r)) (agent_snapshots db)).

(** The row of [worlds] itself. *)
Definition delete_world_row (w : uuid) (db : DB) : DB :=
  mkDB (filter (fun r => negb (World.world_id r =? w)%N) (worlds db))
    (world_tiles db) (world_maps db) (agents db) (relationships db)
    (event_store db) (snapshots db) (agent_snapshots db).

(** Delete the world [w].  Every [world_id] column references
    [worlds.world_id] with [ondelete="CASCADE"]; the agents, events and
    snapshots deleted that way trigger the actions of the columns that
    reference them. *)
Definition delete_world (w : uuid) (db : DB) : DB :=
  let db := delete_world_tiles_where (fun r => (WorldTile.world_id r =? w)%N) db in
  let db := delete_world_maps_where (fun r => (WorldMap.world_id r =? w)%N) db in
  let db :=
    delete_relationships_where (fun r => (Relationship.world_id r =? w)%N) db in
  let db := delete_agents_where (fun r => (Agent.world_id r =? w)%N) db in
  let db := delete_events_where (fun r => (EventStore.world_id r =? w)%N) db in
  let db := delete_snapshots_where (fun r => (Snapshot.world_id r =? w)%N) db in
  delete_world_row w db.

(** Deleting one row, by primary key.  [World.agents], [World.events],
    [World.snapshots] and [Snapshot.agent_snapshots] are declared with
    [cascade="all, delete-orphan"]: a row taken out of its parent's
    collection is deleted. *)
Definition delete_agent (k : uuid) : DB -> DB :=
  delete_agents_where (fun r => (Agent.agent_id r =? k)%N).

Definition delete_event (k : uuid) : DB -> DB :=
  delete_events_where (fun r => (EventStore.event_id r =? k)%N).

Definition delete_snapshot (k : uuid) : DB -> DB :=
  delete_snapshots_where (fun r => (Snapshot.snapshot_id r =? k)%N).

Definition delete_agent_snapshot (k : uuid * uuid) : DB -> DB :=
  delete_agent_snapshots_where (fun r => eqb2 (AgentSnapshot.pk r) k).

Definition delete_world_tile (k : uuid * Z * Z) : DB -> DB :=
  delete_world_tiles_where (fun r => eqb_uzz (WorldTile.pk r) k).

Definition delete_world_map (k : uuid) : DB -> DB :=
  delete_world_maps_where (fun r => (WorldMap.world_id r =? k)%N).

Definition delete_relationship (k : uuid * uuid * uuid) : DB -> DB :=
  delete_relationships_where (fun r => eqb3 (Relationship.pk r) k).

(** *** Statements and histories *)

Inductive statement : Type :=
| InsertWorld (r : World.t)
| InsertWorldTile (r : WorldTile.t)
| InsertWorldMap (r : WorldMap.t)
| InsertAgent (r : Agent.t)
| InsertRelationship (r : Relationship.t)
| InsertEvent (r : EventStore.t)
| InsertSnapshot (r : Snapshot.t)
| InsertAgentSnapshot (r : AgentSnapshot.t)
| DeleteWorld (k : uuid)
| DeleteWorldTile (k : uuid * Z * Z)
| DeleteWorldMap (k : uuid)
| DeleteAgent (k : uuid)
| DeleteRelationship (k : uuid * uuid * uuid)
| DeleteEvent (k : uuid)
| DeleteSnapshot (k : uuid)
| DeleteAgentSnapshot (k : uuid * uuid).

Definition execute (db : DB) (s : statement) : result error DB :=
  match s with
  | InsertWorld r => insert_world db r
  | InsertWorldTile r => insert_world_tile db r
  | InsertWorldMap r => insert_world_map db r
  | InsertAgent r => insert_agent db r
  | InsertRelationship r => insert_relationship db r
  | InsertEvent r => insert_event db r
  | InsertSnapshot r => insert_snapshot db r
  | InsertAgentSnapshot r => insert_agent_snapshot db r
  | DeleteWorld k => Ok (delete_world k db)
  | DeleteWorldTile k => Ok (delete_world_tile k db)
  | DeleteWorldMap k => Ok (delete_world_map k db)
  | DeleteAgent k => Ok (delete_agent k db)
  | DeleteRelationship k => Ok (delete_relationship k db)
  | DeleteEvent k => Ok (delete_event k db)
  | DeleteSnapshot k => Ok (delete_snapshot k db)
  | DeleteAgentSnapshot k => Ok (delete_agent_snapshot k db)
  end.

(** A unit of work: the statements in order; the first refusal ends it. *)
Fixpoint execute_all (db : DB) (ss : list statement) : result error DB :=
  match ss with
  | [] => Ok db
  | s :: ss' => db' <- execute db s ;; execute_all db' ss'
  end.

(** The store after a statement: a refused statement leaves it as it was. *)
Definition after (db : DB) (s : statement) : DB :=
  match execute db s with
  | inl _ => db
  | inr db' => db'
  end.

(** The store a history leaves, from the empty store. *)
Definition history (ss : list statement) : DB := fold_left after ss empty.

(** The stores the schema admits: what accepted statements build from the
    empty store. *)
Inductive reachable : DB -> Prop :=
| reachable_empty : reachable empty
| reachable_execute (db db' : DB) (s : statement) :
    reachable db -> execute db s = Ok db' -> reachable db'.

(** *** What the schema promises of a store *)

(** Every row of [rows] references, through [col], a key of [ids]. *)
Definition fk {A : Type} (col : A -> uuid) (ids : list uuid) (rows : list A)
  : Prop :=
  Forall (fun r => In (col r) ids) rows.

(** The same for a nullable column. *)
Definition fk_null {A : Type} (col : A -> option uuid) (ids : list uuid)
  (rows : list A) : Prop :=
  Forall (fun r => forall k, col r = Some k -> In k ids) rows.

(** [typed ty rows]: every row has the types of its columns. *)
Definition typed {A : Type} (ty : A -> bool) (rows : list A) : Prop :=
  Forall (fun r => ty r = true) rows.

(** [unique key rows]: no two rows agree on [key]. *)
Definition unique {A K : Type} (key : A -> K) (rows : list A) : Prop :=
  NoDup (map key rows).

Record valid (db : DB) : Prop := mkValid {
  ty_worlds : typed World.well_typed (worlds db);
  ty_world_tiles : typed WorldTile.well_typed (world_tiles db);
  ty_world_maps : typed WorldMap.well_typed (world_maps db);
  ty_agents : typed Agent.well_typed (agents db);
  ty_relationships : typed Relationship.well_typed (relationships db);
  ty_event_store : typed EventStore.well_typed (event_store db);
  ty_snapshots : typed Snapshot.well_typed (snapshots db);
  pk_worlds : unique World.world_id (worlds db);
  pk_world_tiles : unique WorldTile.pk (world_tiles db);
  pk_world_maps : unique WorldMap.world_id (world_maps db);
  pk_agents : unique Agent.agent_id (agents db);
  pk_relationships : unique Relationship.pk (relationships db);
  pk_event_store : unique EventStore.event_id (event_store db);
  pk_snapshots : unique Snapshot.snapshot_id (snapshots db);
  pk_agent_snapshots : unique AgentSnapshot.pk (agent_snapshots db);
  uq_events_tick_seq : unique EventStore.uq_events_tick_seq (event_store db);
  ck_events_seq_nonneg :
    typed EventStore.ck_events_seq_nonneg (event_store db);
  uq_snapshot_world_tick :
    unique Snapshot.uq_snapshot_world_tick (snapshots db);
  fk_world_tiles_world : fk WorldTile.world_id (world_ids db) (world_tiles db);
  fk_world_maps_world : fk WorldMap.world_id (world_ids db) (world_maps db);
  fk_agents_world : fk Agent.world_id (world_ids db) (agents db);
  fk_relationships_world :
    fk Relationship.world_id (world_ids db) (relationships db);
  fk_relationships_a :
    fk Relationship.a_agent_id (agent_ids db) (relationships db);
  fk_relationships_b :
    fk Relationship.b_agent_id (agent_ids db) (relationships db);
  fk_events_world : fk EventStore.world_id (world_ids db) (event_store db);
  fk_events_actor :
    fk_null EventStore.actor_agent_id (agent_ids db) (event_store db);
  fk_events_target :
    fk_null EventStore.target_agent_id (agent_ids db) (event_store db);
  fk_events_caused_by :
    fk_null EventStore.caused_by_event_id (event_ids db) (event_store db);
  fk_snapshots_world : fk Snapshot.world_id (world_ids db) (snapshots db);
  fk_agent_snapshots_snapshot :
    fk AgentSnapshot.snapshot_id (snapshot_ids db) (agent_snapshots db);
  fk_agent_snapshots_agent :
    fk AgentSnapshot.agent_id (agent_ids db) (agent_snapshots db)
}.

(** *** Rows and the world they belong to *)

(** The worlds of the agent rows, event rows and snapshot rows with a given
    primary key. *)
Definition agent_in (db : DB) (k w : uuid) : Prop :=
  forall a, In a (agents db) -> Agent.agent_id a = k -> Agent.world_id a = w.

Definition event_in (db : DB) (k w : uuid) : Prop :=
  forall e, In e (event_store db) ->
            EventStore.event_id e = k -> EventStore.world_id e = w.

(** No reference leaves the world of the row that holds it.  The schema
    does not ask for this: a foreign key names a row of the referenced
    table, of whatever world. *)
Record world_closed (db : DB) : Prop := mkClosed {
  closed_relationship_a :
    Forall (fun r => agent_in db (Relationship.a_agent_id r)
                       (Relationship.world_id r)) (relationships db);
  closed_relationship_b :
    Forall (fun r => agent_in db (Relationship.b_agent_id r)
                       (Relationship.world_id r)) (relationships db);
  closed_event_actor :
    Forall (fun e => forall k, EventStore.actor_agent_id e = Some k ->
                               agent_in db k (EventStore.world_id e))
      (event_store db);
  closed_event_target :
    Forall (fun e => forall k, EventStore.target_agent_id e = Some k ->
                               agent_in db k (EventStore.world_id e))
      (event_store db);
  closed_event_caused_by :
    Forall (fun e => forall k, EventStore.caused_by_event_id e = Some k ->
                               event_in db k (EventStore.world_id e))
      (event_store db);
  closed_agent_snapshot :
    Forall (fun r => forall s, In s (snapshots db) ->
                     Snapshot.snapshot_id s = AgentSnapshot.snapshot_id r ->
                     agent_in db (AgentSnapshot.agent_id r) (Snapshot.world_id s))
      (agent_snapshots db)
}.

(** The rows of the worlds other than [w], as they are. *)
Definition without_world (w : uuid) (db : DB) : DB :=
  let gone :=
    map Snapshot.snapshot_id
      (filter (fun s => (Snapshot.world_id s =? w)%N) (snapshots db)) in
  mkDB
    (filter (fun r => negb (World.world_id r =? w)%N) (worlds db))
    (filter (fun r => negb (WorldTile.world_id r =? w)%N) (world_tiles db))
    (filter (fun r => negb (WorldMap.world_id r =? w)%N) (world_maps db))
    (filter (fun r => negb (Agent.world_id r =? w)%N) (agents db))
    (filter (fun r => negb (Relationship.world_id r =? w)%N) (relationships db))
    (filter (fun r => negb (EventStore.world_id r =? w)%N) (event_store db))
    (filter (fun r => negb (Snapshot.world_id r =? w)%N) (snapshots db))
    (filter (fun r => kept gone (AgentSnapshot.snapshot_id r))
       (agent_snapshots db)).

(** No row of [rows] has [w] in the column [col]. *)
Definition none_of {A : Type} (col : A -> uuid) (w : uuid) (rows : list A)
  : Prop :=
  Forall (fun r => col r <> w) rows.

(** *** Properties of the log *)

(** The sequence numbers of every tick count up from 0 without a gap. *)
Definition gap_free (db : DB) : Prop :=
  forall e, In e (event_store db) ->
  forall n, 0 <= n < EventStore.seq_in_tick e ->
  exists e', In e' (event_store db)
             /\ EventStore.world_id e' = EventStore.world_id e
             /\ EventStore.tick e' = EventStore.tick e
             /\ EventStore.seq_in_tick e' = n.

(** The four names the specification gives for [World.status]. *)
Definition statuses : list string := ["CREATED"; "RUNNING"; "PAUSED"; "ARCHIVED"].




End Models.

(** ** The operations of the specification

    The sources stop at the tables.  The definitions of this module follow
    the specification (sections 4.1, 4.2 and 4.4) and run on the store of
    [Models]. *)

Module Engine.

Import Models.

(** Modelled from the spec: the order of the log, [(tick, seq_in_tick)]
    ascending (no function of the sources sorts events). *)
Definition event_leb (e1 e2 : EventStore.t) : bool :=
  (EventStore.tick e1 <? EventStore.tick e2)
  || ((EventStore.tick e1 =? EventStore.tick e2)
      && (EventStore.seq_in_tick e1 <=? EventStore.seq_in_tick e2)).

Fixpoint insert_event_sorted (e : EventStore.t) (l : list EventStore.t)
  : list EventStore.t :=
  match l with
  | [] => [e]
  | h :: t => if event_leb e h then e :: l else h :: insert_event_sorted e t
  end.

Definition order_events (l : list EventStore.t) : list EventStore.t :=
  fold_right insert_event_sorted [] l.

Definition le_event (e1 e2 : EventStore.t) : Prop := event_leb e1 e2 = true.

(** Modelled from the spec: the events of a world with a tick in
    [[from_tick, to_tick]], in the order of the log. *)
Definition window (db : DB) (world_id : uuid) (from_tick to_tick : Z)
  : list EventStore.t :=
  order_events
    (filter (fun e => (EventStore.world_id e =? world_id)%N
                      && (from_tick <=? EventStore.tick e)
                      && (EventStore.tick e <=? to_tick))
       (event_store db)).

(** Modelled from the spec: [capture(world_id, tick, world_state,
    agent_states)], absent from the sources.  One unit of work inserts the
    snapshot row and a row per agent state; the new primary key and the
    clock are arguments. *)
Definition capture (db : DB) (snapshot_id : uuid) (now : datetime)
  (world_id : uuid) (tick : Z) (world_state : json)
  (agent_states : list (uuid * json)) : result error DB :=
  execute_all db
    (InsertSnapshot (Snapshot.mk snapshot_id world_id tick world_state None now)
     :: map (fun a => InsertAgentSnapshot
                        (AgentSnapshot.mk snapshot_id (fst a) (snd a)))
          agent_states).

(** Modelled from the spec: [latest_before(world_id, tick)], absent from the
    sources: the snapshot of the world with the greatest tick at or before
    [tick], if there is one. *)
Definition later (s : Snapshot.t) (best : option Snapshot.t) : option Snapshot.t :=
  match best with
  | None => Some s
  | Some b => if Snapshot.tick b <? Snapshot.tick s then Some s else Some b
  end.

Definition latest_before (db : DB) (world_id : uuid) (tick : Z)
  : option Snapshot.t :=
  fold_right
    (fun s best =>
       if (Snapshot.world_id s =? world_id)%N && (Snapshot.tick s <=? tick)
       then later s best else best)
    None (snapshots db).

(** The per-agent captures a snapshot owns. *)
Definition captures (db : DB) (s : Snapshot.t) : list AgentSnapshot.t :=
  filter (fun r => (AgentSnapshot.snapshot_id r =? Snapshot.snapshot_id s)%N)
    (agent_snapshots db).

Section Reconstruction.

(** The state a replay computes, the state before any event, the handler
    registered for the events, the reader of a stored snapshot ([None] when
    its payload cannot be read) and the payload versions a reader knows. *)
Variable State : Type.
Variable initial : State.
Variable handler : State -> EventStore.t -> State.
Variable load : Snapshot.t -> list AgentSnapshot.t -> option State.
Variable readable : EventStore.t -> bool.

(** Modelled from the spec: [read(world_id, from_tick, to_tick)], absent
    from the sources: the events of the world with a tick in
    [[from_tick, to_tick]], ordered; an unknown world is [NotFound], an
    event of an unknown payload version [SchemaMismatch]. *)
Definition read (db : DB) (world_id : uuid) (from_tick to_tick : Z)
  : result error (list EventStore.t) :=
  check (mem N.eqb world_id (world_ids db)) NotFound ;;
  let events := window db world_id from_tick to_tick in
  check (forallb readable events) SchemaMismatch ;;
  Ok events.

(** Modelled from the spec: full replay, the fold of the whole log from
    tick 0 from the initial state. *)
Definition replay_from_zero (db : DB) (world_id : uuid) (tick : Z)
  : result error State :=
  events <- read db world_id 0 tick ;;
  Ok (fold_left handler events initial).

(** Modelled from the spec: [state_at(world_id, tick)], absent from the
    sources: start from the latest snapshot at or before [tick] and fold the
    events after it; with no snapshot, replay from tick 0.  A snapshot that
    cannot be read is [CorruptSnapshot]. *)
Definition state_at (db : DB) (world_id : uuid) (tick : Z)
  : result error State :=
  match latest_before db world_id tick with
  | None => replay_from_zero db world_id tick
  | Some s =>
      match load s (captures db s) with
      | None => Err CorruptSnapshot
      | Some st =>
          events <- read db world_id (Snapshot.tick s + 1) tick ;;
          Ok (fold_left handler events st)
      end
  end.

End Reconstruction.

End Engine.

(** ** Stores and inputs the theorems are tried on *)

Module Examples.

Import Models.

(** Two worlds, and agents in each. *)
Definition world1 : World.t := World.new 1 (Some "W") 42 "v1" None None None 0.
Definition world2 : World.t := World.new 2 None 7 "v1" None None None 0.
Definition agentA : Agent.t :=
  Agent.new 10 1 "agentA" None None None None None "{}" None 0.
Definition agentC : Agent.t :=
  Agent.new 11 1 "agentC" None None None None None "{}" None 0.
Definition agentB : Agent.t :=
  Agent.new 20 2 "agentB" None None None None None "{}" None 0.

(** An event of world 1 at tick 1 with sequence number 5. *)
Definition event_seq5 : EventStore.t :=
  EventStore.new 100 1 1 (Some 5) "move" None None None None "{dx:1}" None None 0.

Definition store_gap : list statement :=
  [InsertWorld world1; InsertEvent event_seq5].

Definition db_gap : DB := history store_gap.

(** An event at tick 5 and one at tick 1 that names it as its cause. *)
Definition event_late : EventStore.t :=
  EventStore.new 101 1 5 None "spawn" None None None None "{}" None None 0.
Definition event_early : EventStore.t :=
  EventStore.new 102 1 1 None "move" None None None None "{}" (Some 101%N) None 0.

Definition store_forward_cause : list statement :=
  [InsertWorld world1; InsertEvent event_late; InsertEvent event_early].

Definition db_forward_cause : DB := history store_forward_cause.

(** An event that names a cause no store holds. *)
Definition event_orphan : EventStore.t :=
  EventStore.new 105 1 6 None "move" None None None None "{}" (Some 999%N) None 0.

(** An event of world 1 whose actor is agentA. *)
Definition event_moveA : EventStore.t :=
  EventStore.new 103 1 1 None "move" (Some 10%N) None None None "{dx:1}" None None 0.

Definition store_actor : list statement :=
  [InsertWorld world1; InsertAgent agentA; InsertEvent event_moveA].

Definition db_actor : DB := history store_actor.

(** An event of world 2 whose actor is agentA, of world 1, and a
    relationship of world 2 from agentA to agentB. *)
Definition event_visit : EventStore.t :=
  EventStore.new 104 2 1 None "visit" (Some 10%N) None None None "{}" None None 0.
Definition relationAB : Relationship.t :=
  Relationship.new 2 10 20 None None None None None None.

Definition store_two_worlds : list statement :=
  [InsertWorld world1; InsertWorld world2; InsertAgent agentA;
   InsertAgent agentB; InsertRelationship relationAB; InsertEvent event_visit].

Definition db_two_worlds : DB := history store_two_worlds.

(** Two worlds whose rows reference rows of their own world only. *)
Definition event_moveB : EventStore.t :=
  EventStore.new 106 2 1 None "move" (Some 20%N) None None None "{}" None None 0.
Definition snapshotB : Snapshot.t := Snapshot.mk 210 2 1 "{}" None 0.
Definition captureB : AgentSnapshot.t := AgentSnapshot.mk 210 20 "{}".

Definition store_closed : list statement :=
  [InsertWorld world1; InsertWorld world2; InsertAgent agentA;
   InsertAgent agentB; InsertEvent event_moveA; InsertEvent event_moveB;
   InsertSnapshot snapshotB; InsertAgentSnapshot captureB].

Definition db_closed : DB := history store_closed.

(** A world whose status is none of the four names. *)
Definition world_bogus : World.t :=
  World.new 3 None 1 "v1" None None (Some "BOGUS") 0.

Definition db_bogus : DB := history [InsertWorld world_bogus].

(** Both directions between agentA and agentC. *)
Definition one : float := S754_finite false 4503599627370496 (-52).
Definition relationAC : Relationship.t :=
  Relationship.new 1 10 11 (Some one) None None None None None.
Definition relationCA : Relationship.t :=
  Relationship.new 1 11 10 None None (Some one) None (Some 3) None.

Definition store_directed : list statement :=
  [InsertWorld world1; InsertAgent agentA; InsertAgent agentC;
   InsertRelationship relationAC].

Definition db_directed : DB := history store_directed.

(** A snapshot of world 1 at tick 1, and a second one for the same tick. *)
Definition snapshot1 : Snapshot.t := Snapshot.mk 200 1 1 "{A:[1,0]}" None 0.
Definition snapshot1_again : Snapshot.t := Snapshot.mk 201 1 1 "{A:[7,7]}" None 9.

Definition store_snapshot : list statement :=
  [InsertWorld world1; InsertSnapshot snapshot1].

Definition db_snapshot : DB := history store_snapshot.

(** A replay whose state is the journal of the event types seen, which a
    snapshot stores as it is. *)
Definition journal : Type := string.
Definition journal_handler (st : journal) (e : EventStore.t) : journal :=
  (st ++ EventStore.event_type e ++ ";")%string.
Definition journal_load (s : Snapshot.t) (_ : list AgentSnapshot.t)
  : option journal :=
  Some (Snapshot.world_state_json s).
Definition any_version (_ : EventStore.t) : bool := true.

(** The scenario of the specification: two events at tick 1, a snapshot at
    tick 1, an event at tick 2. *)
Definition move1 : EventStore.t :=
  EventStore.new 301 1 1 (Some 0) "move" (Some 10%N) None None None "{dx:1}" None None 0.
Definition rest1 : EventStore.t :=
  EventStore.new 302 1 1 (Some 1) "rest" (Some 10%N) None None None "{}" None None 0.
Definition move2 : EventStore.t :=
  EventStore.new 303 1 2 (Some 0) "walk" (Some 10%N) None None None "{dx:1}" None None 0.
Definition snapshot_tick1 : Snapshot.t := Snapshot.mk 400 1 1 "move;rest;" None 0.

Definition store_scenario : list statement :=
  [InsertWorld world1; InsertAgent agentA; InsertEvent move1; InsertEvent rest1;
   InsertSnapshot snapshot_tick1; InsertEvent move2].

Definition db_scenario : DB := history store_scenario.

(** The same, and then a third event at tick 1. *)
Definition talk1 : EventStore.t :=
  EventStore.new 304 1 1 (Some 2) "talk" (Some 10%N) None None None "{}" None None 0.

Definition db_stale : DB := history (store_scenario ++ [InsertEvent talk1]).

(** Two entities at the coordinates [2^53] and [2^53 + 1]. *)
Definition far : list TopDown.entity :=
  [TopDown.AnEntity (Model.mkEntity 1 "Rock" (2 ^ 53) (2 ^ 53));
   TopDown.AnEntity (Model.mkEntity 2 "Tree" (2 ^ 53 + 1) (2 ^ 53 + 1))].

(** [2.0 ** 53]. *)
Definition two53 : Py.float := S754_finite false 4503599627370496 1.

(** The entities of [view/demo.py]. *)
Definition demo : list TopDown.entity :=
  [TopDown.AnAgent (Model.mkAgent 1 "Alice" 0 0 "F" 100 30 []);
   TopDown.AnAgent (Model.mkAgent 2 "Bob" (-20) 10 "M" 100 28 []);
   TopDown.AnAgent (Model.mkAgent 3 "Eve" 50 (-30) "F" 90 25 []);
   TopDown.AnInteractiveEntity (Model.mkInteractiveEntity 10 "Chest" 15 5 10);
   TopDown.AnInteractiveEntity
     (Model.mkInteractiveEntity 11 "Research Node" (-40) 20 5);
   TopDown.AnInteractiveEntity (Model.mkInteractiveEntity 12 "Door" 30 40 100);
   TopDown.AnEntity (Model.mkEntity 20 "Rock" (-5) (-10));
   TopDown.AnEntity (Model.mkEntity 21 "Tree" 20 15)].

End Examples.

(** * Theorems *)

(** ** model/test.py *)

Lemma move_other (A : Type) (a : Model.Agent) (actor : A) (d : string) :
  d <> "up" -> d <> "down" -> d <> "left" -> d <> "right" ->
  Model.move a actor d = a.
Proof.
  intros Hu Hd Hl Hr. unfold Model.move.
  apply String.eqb_neq in Hu, Hd, Hl, Hr.
  now rewrite Hu, Hd, Hl, Hr.
Qed.

(** C9: [Agent.move] with "up" adds 1 to [y], with "down" subtracts 1 from
    [y], with "left" subtracts 1 from [x], with "right" adds 1 to [x] and
    with any other direction changes neither; the coordinate not named stays,
    and so do [entity_id], [name], [gender], [health], [years] and [bag]. *)
Theorem Agent_move_spec (A : Type) (a : Model.Agent) (actor : A) (direction : string) :
  let a' := Model.move a actor direction in
  (direction = "up" -> Model.x a' = Model.x a /\ Model.y a' = Model.y a + 1)
  /\ (direction = "down" -> Model.x a' = Model.x a /\ Model.y a' = Model.y a - 1)
  /\ (direction = "left" -> Model.x a' = Model.x a - 1 /\ Model.y a' = Model.y a)
  /\ (direction = "right" -> Model.x a' = Model.x a + 1 /\ Model.y a' = Model.y a)
  /\ (direction <> "up" -> direction <> "down" -> direction <> "left" ->
      direction <> "right" -> Model.x a' = Model.x a /\ Model.y a' = Model.y a)
  /\ Model.entity_id a' = Model.entity_id a
  /\ Model.name a' = Model.name a
  /\ Model.gender a' = Model.gender a
  /\ Model.health a' = Model.health a
  /\ Model.years a' = Model.years a
  /\ Model.bag a' = Model.bag a.
Proof.
  intros a'. subst a'.
  split; [intros ->; split; reflexivity|].
  split; [intros ->; split; reflexivity|].
  split; [intros ->; split; reflexivity|].
  split; [intros ->; split; reflexivity|].
  split; [intros Hu Hd Hl Hr; rewrite move_other by assumption; split; reflexivity|].
  unfold Model.move.
  destruct (String.eqb direction "up"); [repeat split|].
  destruct (String.eqb direction "down"); [repeat split|].
  destruct (String.eqb direction "left"); [repeat split|].
  destruct (String.eqb direction "right"); repeat split.
Qed.

(** The claim tried on an agent of [view/demo.py]. *)
Lemma Agent_move_spec_witness :
  let alice := Model.mkAgent 1 "Alice" 0 0 "F" 100 30 [] in
  (Model.x (Model.move alice alice "up") = 0
   /\ Model.y (Model.move alice alice "up") = 0 + 1)
  /\ (Model.x (Model.move alice alice "jump") = 0
      /\ Model.y (Model.move alice alice "jump") = 0).
Proof.
  intros alice.
  destruct (Agent_move_spec Model.Agent alice alice "up") as (Hup & _).
  destruct (Agent_move_spec Model.Agent alice alice "jump")
    as (_ & _ & _ & _ & Hother & _).
  split; [apply Hup; reflexivity | apply Hother; discriminate].
Defined.

(** ** view/topdown.py *)

Section TopDownFacts.

Import Py TopDown.


Lemma min_le_max (t : list Z) : forall lo hi, lo <= hi -> min_list lo t <= max_list hi t.
Proof.
  unfold min_list, max_list. induction t as [|z t IH]; intros lo hi H; simpl; [assumption|].
  apply IH. lia.
Qed.

Lemma widen_lt lo hi lo' hi' : lo <= hi -> widen lo hi = (lo', hi') -> lo' < hi'.
Proof.
  unfold widen. intros H. destruct (lo =? hi) eqn:E; intros [= <- <-]; lia.
Qed.

Lemma arith_no_zero_division fz ff a b : arith fz ff a b <> Err ZeroDivisionError.
Proof.
  assert (Hf : forall z, float_of_int z <> Err ZeroDivisionError).
  { intros z. unfold float_of_int. destruct (binary_normalize _ _ _ _ _); discriminate. }
  destruct a as [x|x], b as [y|y]; unfold arith, to_float, bind, Ok, Err;
    repeat match goal with
           | |- context [float_of_int ?z] =>
               let E := fresh "E" in
               destruct (float_of_int z) as [[]|] eqn:E;
               [exfalso; exact (Hf z E)| |]
           end; discriminate.
Qed.

Lemma int_truediv_nonzero x y : y <> 0 -> int_truediv x y <> Err ZeroDivisionError.
Proof.
  intros H. unfold int_truediv. apply Z.eqb_neq in H. rewrite H.
  destruct (x =? 0); [discriminate|].
  destruct (SFdiv_core_binary _ _ _ _ _ _) as [[mz ez] lz].
  destruct (binary_round_aux _ _ _ _ _ _); discriminate.
Qed.

Lemma truediv_int_nonzero x y : y <> 0 -> truediv (PyInt x) (PyInt y) <> Err ZeroDivisionError.
Proof. apply int_truediv_nonzero. Qed.

Lemma bind_no_zero_division {A B} (m : M A) (k : A -> M B) :
  m <> Err ZeroDivisionError -> (forall a, k a <> Err ZeroDivisionError) ->
  bind m k <> Err ZeroDivisionError.
Proof.
  intros Hm Hk. destruct m as [e|a]; simpl; [|apply Hk].
  intros [= ->]. now apply Hm.
Qed.

(** With an [int] margin that is not negative every operation is exact: the
    bounds are ints, strictly ordered, and [world_to_screen] does not divide
    by zero on them. *)
Theorem compute_bounds_exact (self : TopDownVisualizer) (entities : list entity) (m : Z) :
  margin self = PyInt m -> 0 <= m ->
  exists min_x max_x min_y max_y,
    compute_bounds self entities
    = Ok (PyInt min_x, PyInt max_x, PyInt min_y, PyInt max_y)
    /\ min_x < max_x /\ min_y < max_y
    /\ forall x y,
        world_to_screen self x y (PyInt min_x, PyInt max_x, PyInt min_y, PyInt max_y)
        <> Err ZeroDivisionError.
Proof.
  intros Hm Hpos.
  assert (Hdiv : forall a b c d, a < b -> c < d -> forall x y,
    world_to_screen self x y (PyInt a, PyInt b, PyInt c, PyInt d) <> Err ZeroDivisionError).
  { intros a b c d Hab Hcd x y. unfold world_to_screen.
    change (sub (PyInt b) (PyInt a)) with (Ok (E := exn) (PyInt (b - a))).
    change (sub (PyInt d) (PyInt c)) with (Ok (E := exn) (PyInt (d - c))).
    cbn [bind Ok].
    apply bind_no_zero_division; [apply int_truediv_nonzero; lia|]. intros sx.
    apply bind_no_zero_division; [apply int_truediv_nonzero; lia|]. intros sy.
    repeat (apply bind_no_zero_division; [apply arith_no_zero_division|]; intros ?).
    unfold ret, Ok, Err. discriminate. }
  destruct entities as [|e es].
  - exists 0, 10, 0, 10. repeat split; try lia. apply Hdiv; lia.
  - unfold compute_bounds. rewrite Hm.
    destruct (widen (min_list (x_of e) (map x_of es)) (max_list (x_of e) (map x_of es)))
      as [lx hx] eqn:Ex.
    destruct (widen (min_list (y_of e) (map y_of es)) (max_list (y_of e) (map y_of es)))
      as [ly hy] eqn:Ey.
    apply widen_lt in Ex; [|apply min_le_max; lia].
    apply widen_lt in Ey; [|apply min_le_max; lia].
    cbn.
    eexists _, _, _, _. split; [reflexivity|].
    assert (lx - (hx - lx) * m < hx + (hx - lx) * m) by nia.
    assert (ly - (hy - ly) * m < hy + (hy - ly) * m) by nia.
    repeat split; try assumption. apply Hdiv; assumption.
Qed.

(** The exact case tried on the entities of [view/demo.py]. *)
Lemma compute_bounds_exact_witness :
  exists min_x max_x min_y max_y,
    compute_bounds (init 800 600 (PyInt 0)) Examples.demo
    = Ok (PyInt min_x, PyInt max_x, PyInt min_y, PyInt max_y)
    /\ min_x < max_x /\ min_y < max_y
    /\ forall x y,
        world_to_screen (init 800 600 (PyInt 0)) x y
          (PyInt min_x, PyInt max_x, PyInt min_y, PyInt max_y)
        <> Err ZeroDivisionError.
Proof.
  apply (compute_bounds_exact (init 800 600 (PyInt 0)) Examples.demo 0);
    [reflexivity | lia].
Defined.

(** C10: with the margin [0.1] of [__init__] and two entities at the
    coordinates [2^53] and [2^53 + 1], [compute_bounds] returns four times
    the float [2.0 ** 53]: [min_x < max_x] and [min_y < max_y] fail, and
    [world_to_screen] raises [ZeroDivisionError] on these bounds. *)
Theorem compute_bounds_degenerate :
  margin default = PyFloat float_0_1
  /\ SFleb (S754_zero false) float_0_1 = true
  /\ compute_bounds default Examples.far
     = Ok (PyFloat Examples.two53, PyFloat Examples.two53,
           PyFloat Examples.two53, PyFloat Examples.two53)
  /\ ltb (PyFloat Examples.two53) (PyFloat Examples.two53) = false
  /\ forall x y,
       world_to_screen default x y
         (PyFloat Examples.two53, PyFloat Examples.two53,
          PyFloat Examples.two53, PyFloat Examples.two53)
       = Err ZeroDivisionError.
Proof.
  split; [reflexivity|]. split; [reflexivity|].
  split; [vm_compute; reflexivity|]. split; [reflexivity|].
  intros x y. reflexivity.
Qed.

End TopDownFacts.

(** ** Keys, rows and foreign keys *)

Section SchemaFacts.

Import Models Engine.

Lemma eqb2_eq k1 k2 : eqb2 k1 k2 = true <-> k1 = k2.
Proof.
  destruct k1 as [a b], k2 as [c d]. unfold eqb2. cbn [fst snd].
  rewrite andb_true_iff, !N.eqb_eq. split; [intros [-> ->]; reflexivity | intros [= -> ->]; auto].
Qed.

Lemma eqb3_eq k1 k2 : eqb3 k1 k2 = true <-> k1 = k2.
Proof.
  destruct k1 as [a b], k2 as [c d]. unfold eqb3. cbn [fst snd].
  rewrite andb_true_iff, eqb2_eq, N.eqb_eq. split; [intros [-> ->]; reflexivity | intros [= -> ->]; auto].
Qed.

Lemma eqb_uz_eq k1 k2 : eqb_uz k1 k2 = true <-> k1 = k2.
Proof.
  destruct k1 as [a b], k2 as [c d]. unfold eqb_uz. cbn [fst snd].
  rewrite andb_true_iff, N.eqb_eq, Z.eqb_eq. split; [intros [-> ->]; reflexivity | intros [= -> ->]; auto].
Qed.

Lemma eqb_uzz_eq k1 k2 : eqb_uzz k1 k2 = true <-> k1 = k2.
Proof.
  destruct k1 as [a b], k2 as [c d]. unfold eqb_uzz. cbn [fst snd].
  rewrite andb_true_iff, eqb_uz_eq, Z.eqb_eq. split; [intros [-> ->]; reflexivity | intros [= -> ->]; auto].
Qed.

Section Mem.
Context {K : Type} (eqb : K -> K -> bool).
Hypothesis eqb_eq : forall a b, eqb a b = true <-> a = b.

Lemma mem_In k l : mem eqb k l = true <-> In k l.
Proof.
  unfold mem. rewrite existsb_exists. split.
  - intros [x [Hx E]]. apply eqb_eq in E. now subst.
  - intros H. exists k. split; [assumption | now apply eqb_eq].
Qed.

Lemma not_mem_In k l : mem eqb k l = false <-> ~ In k l.
Proof.
  rewrite <- mem_In. destruct (mem eqb k l); split; congruence.
Qed.
End Mem.

Lemma memN_In (k : uuid) (l : list uuid) : mem N.eqb k l = true <-> In k l.
Proof. apply mem_In, N.eqb_eq. Qed.

Lemma not_memN_In (k : uuid) (l : list uuid) : mem N.eqb k l = false <-> ~ In k l.
Proof. apply not_mem_In, N.eqb_eq. Qed.

Lemma kept_true gone k : kept gone k = true <-> ~ In k gone.
Proof. unfold kept. rewrite negb_true_iff. apply not_memN_In. Qed.

Lemma references_spec o ids :
  references o ids = true <-> forall k, o = Some k -> In k ids.
Proof.
  destruct o as [k|]; simpl.
  - rewrite memN_In. split; [intros H k' [= <-]; exact H | intros H; now apply H].
  - split; [discriminate | reflexivity].
Qed.

Lemma set_null_Some gone o k :
  set_null gone o = Some k <-> o = Some k /\ ~ In k gone.
Proof.
  destruct o as [k'|]; simpl.
  - destruct (mem N.eqb k' gone) eqn:E.
    + apply memN_In in E. split; [discriminate | intros [[= ->] H]; contradiction].
    + apply not_memN_In in E. split; [intros [= <-]; auto | intros [[= ->] _]; reflexivity].
  - split; [discriminate | intros [[=] _]].
Qed.

(** Lists of rows. *)
Section Rows.
Context {A K : Type}.

Lemma typed_filter (ty p : A -> bool) l : typed ty l -> typed ty (filter p l).
Proof.
  unfold typed. rewrite !Forall_forall. intros H r Hr.
  apply filter_In in Hr. now apply H.
Qed.

Lemma Forall_filter_keep (P : A -> Prop) (p : A -> bool) l :
  Forall P l -> Forall P (filter p l).
Proof.
  rewrite !Forall_forall. intros H r Hr. apply filter_In in Hr. now apply H.
Qed.

Lemma unique_filter (key : A -> K) (p : A -> bool) l :
  unique key l -> unique key (filter p l).
Proof.
  unfold unique. induction l as [|r l IH]; simpl; intros H; [constructor|].
  inversion H as [|? ? Hn Hd]; subst.
  destruct (p r); simpl; [constructor|]; auto.
  intros Hin. apply Hn. apply in_map_iff in Hin. destruct Hin as [r' [E Hr']].
  apply filter_In in Hr'. apply in_map_iff. exists r'. tauto.
Qed.

Lemma unique_cons (key : A -> K) r l :
  ~ In (key r) (map key l) -> unique key l -> unique key (r :: l).
Proof. intros Hn H. unfold unique. simpl. now constructor. Qed.

Lemma unique_map (key : A -> K) (f : A -> A) l :
  (forall r, key (f r) = key r) -> unique key l -> unique key (map f l).
Proof.
  intros Hf. unfold unique. rewrite map_map.
  now rewrite (map_ext _ key Hf).
Qed.

Lemma typed_map (ty : A -> bool) (f : A -> A) l :
  (forall r, ty (f r) = ty r) -> typed ty l -> typed ty (map f l).
Proof.
  intros Hf. unfold typed. rewrite !Forall_forall. intros H r Hr.
  apply in_map_iff in Hr. destruct Hr as [r' [<- Hr']]. rewrite Hf. now apply H.
Qed.

Lemma keys_of_map (key : A -> K) (f : A -> A) l :
  (forall r, key (f r) = key r) -> map key (map f l) = map key l.
Proof. intros Hf. rewrite map_map. now apply map_ext. Qed.

End Rows.

(** Foreign keys. *)
Section ForeignKeys.
Context {A P : Type}.

Lemma fk_more (col : A -> uuid) k ids rows :
  fk col ids rows -> fk col (k :: ids) rows.
Proof. unfold fk. apply Forall_impl. intros r H. now right. Qed.

Lemma fk_null_more (col : A -> option uuid) k ids rows :
  fk_null col ids rows -> fk_null col (k :: ids) rows.
Proof. unfold fk_null. apply Forall_impl. intros r H k' E. right. now apply H. Qed.

Lemma fk_filter (col : A -> uuid) ids (p : A -> bool) rows :
  fk col ids rows -> fk col ids (filter p rows).
Proof. apply Forall_filter_keep. Qed.

Lemma fk_null_filter (col : A -> option uuid) ids (p : A -> bool) rows :
  fk_null col ids rows -> fk_null col ids (filter p rows).
Proof. apply Forall_filter_keep. Qed.

(** The parents that stay when those satisfying [p] are deleted. *)
Lemma stays (pk : P -> uuid) (p : P -> bool) parents k :
  In k (map pk parents) -> ~ In k (map pk (filter p parents)) ->
  In k (map pk (filter (fun r => negb (p r)) parents)).
Proof.
  intros Hin Hn. apply in_map_iff in Hin. destruct Hin as [r [E Hr]].
  apply in_map_iff. exists r. split; [assumption|].
  apply filter_In. split; [assumption|].
  destruct (p r) eqn:Ep; [|reflexivity].
  exfalso. apply Hn. apply in_map_iff. exists r. split; [assumption|].
  now apply filter_In.
Qed.

Lemma fk_cascade (col : A -> uuid) (pk : P -> uuid) (p : P -> bool) parents
  (q : A -> bool) rows :
  (forall r, q r = true -> kept (map pk (filter p parents)) (col r) = true) ->
  fk col (map pk parents) rows ->
  fk col (map pk (filter (fun r => negb (p r)) parents)) (filter q rows).
Proof.
  unfold fk. rewrite !Forall_forall. intros Hq H r Hr.
  apply filter_In in Hr. destruct Hr as [Hr Hqr].
  apply stays; [now apply H|]. apply kept_true. now apply Hq.
Qed.

End ForeignKeys.

(** ** Accepted statements keep the schema *)

Lemma check_Ok {E A : Type} (b : bool) (e : E) (k : result E A) (a : A) :
  (check b e ;; k) = Ok a -> b = true /\ k = Ok a.
Proof. destruct b; simpl; [auto | discriminate]. Qed.

Ltac checks H :=
  repeat (apply check_Ok in H; let C := fresh "C" in destruct H as [C H]);
  injection H as H; subst.

Ltac ids := unfold world_ids, agent_ids, event_ids, snapshot_ids in *;
  cbn [worlds world_tiles world_maps agents relationships event_store snapshots
       agent_snapshots map] in *.

Ltac facts :=
  repeat match goal with
  | H : negb _ = true |- _ => apply negb_true_iff in H
  | H : mem N.eqb _ _ = true |- _ => apply memN_In in H
  | H : mem N.eqb _ _ = false |- _ => apply not_memN_In in H
  | H : mem eqb2 _ _ = false |- _ => apply (not_mem_In eqb2 eqb2_eq) in H
  | H : mem eqb3 _ _ = false |- _ => apply (not_mem_In eqb3 eqb3_eq) in H
  | H : mem eqb_uz _ _ = false |- _ => apply (not_mem_In eqb_uz eqb_uz_eq) in H
  | H : mem eqb_uzz _ _ = false |- _ => apply (not_mem_In eqb_uzz eqb_uzz_eq) in H
  | H : references _ _ = true |- _ => rewrite references_spec in H
  end.

Ltac row :=
  first
  [ assumption
  | apply unique_cons; assumption
  | apply Forall_cons; assumption
  | apply fk_more; assumption
  | apply fk_null_more; assumption
  | apply Forall_cons; [assumption | apply fk_more; assumption]
  | apply Forall_cons; [assumption | apply fk_null_more; assumption] ].

Lemma insert_world_valid db r db' :
  valid db -> insert_world db r = Ok db' -> valid db'.
Proof.
  intros [] H. unfold insert_world in H. checks H. facts.
  constructor; ids; row.
Qed.

Lemma insert_world_tile_valid db r db' :
  valid db -> insert_world_tile db r = Ok db' -> valid db'.
Proof.
  intros [] H. unfold insert_world_tile in H. checks H. facts.
  constructor; ids; row.
Qed.

Lemma insert_world_map_valid db r db' :
  valid db -> insert_world_map db r = Ok db' -> valid db'.
Proof.
  intros [] H. unfold insert_world_map in H. checks H. facts.
  constructor; ids; row.
Qed.

Lemma insert_agent_valid db r db' :
  valid db -> insert_agent db r = Ok db' -> valid db'.
Proof.
  intros [] H. unfold insert_agent in H. checks H. facts.
  constructor; ids; row.
Qed.

Lemma insert_relationship_valid db r db' :
  valid db -> insert_relationship db r = Ok db' -> valid db'.
Proof.
  intros [] H. unfold insert_relationship in H. checks H. facts.
  constructor; ids; row.
Qed.

Lemma insert_snapshot_valid db r db' :
  valid db -> insert_snapshot db r = Ok db' -> valid db'.
Proof.
  intros [] H. unfold insert_snapshot in H. checks H. facts.
  constructor; ids; row.
Qed.

Lemma insert_agent_snapshot_valid db r db' :
  valid db -> insert_agent_snapshot db r = Ok db' -> valid db'.
Proof.
  intros [] H. unfold insert_agent_snapshot in H. checks H. facts.
  constructor; ids; row.
Qed.

Lemma insert_event_valid db r db' :
  valid db -> insert_event db r = Ok db' -> valid db'.
Proof.
  intros [] H. unfold insert_event in H. checks H. facts.
  constructor; ids; row.
Qed.

Section Cascades.
Context {A P : Type}.

Lemma fk_map (col : A -> uuid) (f : A -> A) ids rows :
  (forall r, col (f r) = col r) -> fk col ids rows -> fk col ids (map f rows).
Proof.
  intros Hf. unfold fk. rewrite !Forall_forall. intros H r Hr.
  apply in_map_iff in Hr. destruct Hr as [r' [<- Hr']]. rewrite Hf. now apply H.
Qed.

Lemma fk_null_map (col : A -> option uuid) (f : A -> A) ids rows :
  (forall r, col (f r) = col r) ->
  fk_null col ids rows -> fk_null col ids (map f rows).
Proof.
  intros Hf. unfold fk_null. rewrite !Forall_forall. intros H r Hr.
  apply in_map_iff in Hr. destruct Hr as [r' [<- Hr']]. rewrite Hf. now apply H.
Qed.

Lemma fk_set_null (col : A -> option uuid) (f : A -> A) (pk : P -> uuid)
  (p : P -> bool) parents rows :
  (forall r, col (f r) = set_null (map pk (filter p parents)) (col r)) ->
  fk_null col (map pk parents) rows ->
  fk_null col (map pk (filter (fun r => negb (p r)) parents)) (map f rows).
Proof.
  intros Hf. unfold fk_null. rewrite !Forall_forall. intros H r Hr k Hk.
  apply in_map_iff in Hr. destruct Hr as [r' [<- Hr']].
  rewrite Hf in Hk. apply set_null_Some in Hk. destruct Hk as [Hk Hn].
  apply stays; [now apply (H r')|assumption].
Qed.

Lemma fk_parent_filter (col : A -> uuid) (pk : P -> uuid) (p : P -> bool)
  parents rows :
  Forall (fun r => ~ In (col r) (map pk (filter p parents))) rows ->
  fk col (map pk parents) rows ->
  fk col (map pk (filter (fun r => negb (p r)) parents)) rows.
Proof.
  unfold fk. rewrite !Forall_forall. intros Hn H r Hr.
  apply stays; [now apply H | now apply Hn].
Qed.

End Cascades.

Lemma delete_agents_where_valid p db :
  valid db -> valid (delete_agents_where p db).
Proof.
  intros []. unfold delete_agents_where. constructor; ids;
    try assumption;
    try (apply typed_filter; assumption);
    try (apply unique_filter; assumption);
    try (apply fk_filter; assumption);
    try (apply typed_map; [intros []; reflexivity | assumption]);
    try (apply unique_map; [intros []; reflexivity | assumption]);
    try (apply fk_map; [intros []; reflexivity | assumption]).
  - apply fk_cascade; [|assumption]. intros r Hr. now apply andb_true_iff in Hr.
  - apply fk_cascade; [|assumption]. intros r Hr. now apply andb_true_iff in Hr.
  - apply fk_set_null; [intros []; reflexivity | assumption].
  - apply fk_set_null; [intros []; reflexivity | assumption].
  - rewrite keys_of_map by (intros []; reflexivity).
    apply fk_null_map; [intros []; reflexivity | assumption].
  - apply fk_cascade; [|assumption]. auto.
Qed.

Lemma delete_events_where_valid p db :
  valid db -> valid (delete_events_where p db).
Proof.
  intros []. unfold delete_events_where. constructor; ids;
    try assumption;
    try (apply typed_map; [intros []; reflexivity | apply typed_filter; assumption]);
    try (apply unique_map; [intros []; reflexivity | apply unique_filter; assumption]);
    try (apply fk_map; [intros []; reflexivity | apply fk_filter; assumption]);
    try (apply fk_null_map; [intros []; reflexivity | apply fk_null_filter; assumption]).
  rewrite keys_of_map by (intros []; reflexivity).
  apply (fk_set_null EventStore.caused_by_event_id _ EventStore.event_id p);
    [intros []; reflexivity | apply fk_null_filter; assumption].
Qed.

Lemma delete_snapshots_where_valid p db :
  valid db -> valid (delete_snapshots_where p db).
Proof.
  intros []. unfold delete_snapshots_where. constructor; ids;
    try assumption;
    try (apply typed_filter; assumption);
    try (apply unique_filter; assumption);
    try (apply fk_filter; assumption).
  apply fk_cascade; [|assumption]. auto.
Qed.

Lemma delete_world_tiles_where_valid p db :
  valid db -> valid (delete_world_tiles_where p db).
Proof.
  intros []. constructor; ids; try assumption;
    first [apply typed_filter | apply unique_filter | apply fk_filter]; assumption.
Qed.

Lemma delete_world_maps_where_valid p db :
  valid db -> valid (delete_world_maps_where p db).
Proof.
  intros []. constructor; ids; try assumption;
    first [apply typed_filter | apply unique_filter | apply fk_filter]; assumption.
Qed.

Lemma delete_relationships_where_valid p db :
  valid db -> valid (delete_relationships_where p db).
Proof.
  intros []. constructor; ids; try assumption;
    first [apply typed_filter | apply unique_filter | apply fk_filter]; assumption.
Qed.

Lemma delete_agent_snapshots_where_valid p db :
  valid db -> valid (delete_agent_snapshots_where p db).
Proof.
  intros []. constructor; ids; try assumption;
    first [apply typed_filter | apply unique_filter | apply fk_filter]; assumption.
Qed.

Lemma none_of_filter {A : Type} (col : A -> uuid) w (rows : list A) :
  none_of col w (filter (fun r => negb (col r =? w)%N) rows).
Proof.
  unfold none_of. apply Forall_forall. intros r Hr. apply filter_In in Hr.
  destruct Hr as [_ Hr]. apply negb_true_iff in Hr. now apply N.eqb_neq.
Qed.

Lemma none_of_sub {A : Type} (col : A -> uuid) w (p : A -> bool) (rows : list A) :
  none_of col w rows -> none_of col w (filter p rows).
Proof. apply Forall_filter_keep. Qed.

Lemma none_of_map {A : Type} (col : A -> uuid) w (f : A -> A) (rows : list A) :
  (forall r, col (f r) = col r) -> none_of col w rows -> none_of col w (map f rows).
Proof.
  intros Hf. unfold none_of. rewrite !Forall_forall. intros H r Hr.
  apply in_map_iff in Hr. destruct Hr as [r' [<- Hr']]. rewrite Hf. now apply H.
Qed.

Lemma filter_map_commute {A : Type} (f : A -> A) (p : A -> bool) (rows : list A) :
  (forall r, p (f r) = p r) -> filter p (map f rows) = map f (filter p rows).
Proof.
  intros Hf. induction rows as [|r rows IH]; simpl; [reflexivity|].
  rewrite Hf. destruct (p r); simpl; now rewrite IH.
Qed.

Lemma fk_world_row {A : Type} (col : A -> uuid) w worlds (rows : list A) :
  none_of col w rows ->
  fk col (map World.world_id worlds) rows ->
  fk col (map World.world_id
            (filter (fun r => negb (World.world_id r =? w)%N) worlds)) rows.
Proof.
  intros Hn. apply (fk_parent_filter col World.world_id (fun r => (World.world_id r =? w)%N)).
  unfold none_of in Hn. rewrite Forall_forall in *. intros r Hr Hin.
  apply (Hn r Hr). apply in_map_iff in Hin. destruct Hin as [x [E Hx]].
  apply filter_In in Hx. destruct Hx as [_ Hx]. apply N.eqb_eq in Hx. congruence.
Qed.

Lemma delete_world_row_valid w db :
  none_of WorldTile.world_id w (world_tiles db) ->
  none_of WorldMap.world_id w (world_maps db) ->
  none_of Agent.world_id w (agents db) ->
  none_of Relationship.world_id w (relationships db) ->
  none_of EventStore.world_id w (event_store db) ->
  none_of Snapshot.world_id w (snapshots db) ->
  valid db -> valid (delete_world_row w db).
Proof.
  intros H1 H2 H3 H4 H5 H6 []. constructor; ids; try assumption;
    first [apply typed_filter | apply unique_filter | apply fk_world_row]; assumption.
Qed.

(** What [delete_world] leaves in the tables with a [world_id] column. *)
Lemma delete_world_none w db :
  let db' := delete_world w db in
  none_of World.world_id w (worlds db')
  /\ none_of WorldTile.world_id w (world_tiles db')
  /\ none_of WorldMap.world_id w (world_maps db')
  /\ none_of Agent.world_id w (agents db')
  /\ none_of Relationship.world_id w (relationships db')
  /\ none_of EventStore.world_id w (event_store db')
  /\ none_of Snapshot.world_id w (snapshots db').
Proof.
  cbn. repeat split.
  - apply none_of_filter.
  - apply none_of_filter.
  - apply none_of_filter.
  - apply none_of_filter.
  - apply none_of_sub, none_of_filter.
  - apply none_of_map; [intros []; reflexivity|].
    apply (none_of_filter EventStore.world_id).
  - apply none_of_filter.
Qed.

Lemma delete_world_valid w db : valid db -> valid (delete_world w db).
Proof.
  intros Hv.
  pose proof (delete_world_none w db) as Hn. cbv zeta in Hn.
  destruct Hn as (_ & H1 & H2 & H3 & H4 & H5 & H6).
  unfold delete_world in *.
  apply delete_world_row_valid; try assumption.
  apply delete_snapshots_where_valid, delete_events_where_valid,
    delete_agents_where_valid, delete_relationships_where_valid,
    delete_world_maps_where_valid, delete_world_tiles_where_valid, Hv.
Qed.

Lemma empty_valid : valid empty.
Proof. constructor; cbn; constructor. Qed.

Lemma execute_valid db s db' : valid db -> execute db s = Ok db' -> valid db'.
Proof.
  intros Hv H. destruct s; cbn [execute] in H;
    try (injection H as <-).
  - eapply insert_world_valid; eassumption.
  - eapply insert_world_tile_valid; eassumption.
  - eapply insert_world_map_valid; eassumption.
  - eapply insert_agent_valid; eassumption.
  - eapply insert_relationship_valid; eassumption.
  - eapply insert_event_valid; eassumption.
  - eapply insert_snapshot_valid; eassumption.
  - eapply insert_agent_snapshot_valid; eassumption.
  - now apply delete_world_valid.
  - now apply delete_world_tiles_where_valid.
  - now apply delete_world_maps_where_valid.
  - now apply delete_agents_where_valid.
  - now apply delete_relationships_where_valid.
  - now apply delete_events_where_valid.
  - now apply delete_snapshots_where_valid.
  - now apply delete_agent_snapshots_where_valid.
Qed.

Lemma reachable_valid db : reachable db -> valid db.
Proof.
  induction 1 as [|db db' s _ IH H]; [apply empty_valid|].
  eapply execute_valid; eassumption.
Qed.

Lemma execute_all_reachable ss : forall db db',
  reachable db -> execute_all db ss = Ok db' -> reachable db'.
Proof.
  induction ss as [|s ss IH]; intros db db' Hr H; cbn in H.
  - now injection H as <-.
  - destruct (execute db s) as [e|db1] eqn:E; cbn in H; [discriminate|].
    eapply IH; [|exact H]. eapply reachable_execute; eassumption.
Qed.

Lemma execute_all_history ss : forall db db',
  execute_all db ss = Ok db' -> fold_left after ss db = db'.
Proof.
  induction ss as [|s ss IH]; intros db db' H; cbn in H |- *.
  - now injection H as <-.
  - unfold after at 2. destruct (execute db s) as [e|db1]; cbn in H; [discriminate|].
    now apply IH.
Qed.

(** A history whose statements are all accepted leaves a reachable store. *)
Lemma history_reachable ss db :
  execute_all empty ss = Ok db -> reachable (history ss).
Proof.
  intros H. unfold history. rewrite (execute_all_history ss empty db H).
  eapply execute_all_reachable; [constructor | exact H].
Qed.

(** ** The event log *)

Lemma unique_inj {A K : Type} (key : A -> K) (l : list A) (a b : A) :
  unique key l -> In a l -> In b l -> key a = key b -> a = b.
Proof.
  unfold unique. induction l as [|r l IH]; simpl; intros Hu Ha Hb E; [contradiction|].
  inversion Hu as [|? ? Hn Hd]; subst.
  destruct Ha as [-> | Ha], Hb as [-> | Hb]; auto.
  - exfalso. apply Hn. rewrite E. now apply in_map.
  - exfalso. apply Hn. rewrite <- E. now apply in_map.
Qed.

(** C1, as the schema has it: in every store the schema admits no two events
    of a world share [(tick, seq_in_tick)] and every [seq_in_tick] is at least
    0; the sequence number is the writer's, 0 when the writer gives none. *)
Theorem event_order_unique_nonneg (db : DB) :
  reachable db ->
  (forall e1 e2, In e1 (event_store db) -> In e2 (event_store db) ->
     EventStore.world_id e1 = EventStore.world_id e2 ->
     EventStore.tick e1 = EventStore.tick e2 ->
     EventStore.seq_in_tick e1 = EventStore.seq_in_tick e2 -> e1 = e2)
  /\ (forall e, In e (event_store db) -> 0 <= EventStore.seq_in_tick e)
  /\ (forall event_id world_id tick event_type actor target x y payload
        caused_by schema_version now,
        EventStore.seq_in_tick
          (EventStore.new event_id world_id tick None event_type actor target
             x y payload caused_by schema_version now) = 0).
Proof.
  intros Hr. apply reachable_valid in Hr. destruct Hr. repeat split.
  - intros e1 e2 H1 H2 Ew Et Es.
    apply (unique_inj EventStore.uq_events_tick_seq (event_store db)); try assumption.
    unfold EventStore.uq_events_tick_seq. congruence.
  - intros e He. unfold typed in *. rewrite Forall_forall in ck_events_seq_nonneg0.
    apply ck_events_seq_nonneg0 in He. unfold EventStore.ck_events_seq_nonneg in He. lia.
Qed.

Lemma db_gap_reachable : reachable Examples.db_gap.
Proof. apply (history_reachable Examples.store_gap Examples.db_gap). reflexivity. Qed.

Lemma event_order_unique_nonneg_witness :
  (forall e1 e2,
      In e1 (event_store Examples.db_gap) -> In e2 (event_store Examples.db_gap) ->
      EventStore.world_id e1 = EventStore.world_id e2 ->
      EventStore.tick e1 = EventStore.tick e2 ->
      EventStore.seq_in_tick e1 = EventStore.seq_in_tick e2 -> e1 = e2)
  /\ (forall e, In e (event_store Examples.db_gap) -> 0 <= EventStore.seq_in_tick e).
Proof.
  pose proof (event_order_unique_nonneg Examples.db_gap db_gap_reachable) as H.
  split; apply H.
Defined.

(** The schema accepts a first event of a tick with sequence number 5: the
    numbers 0 to 4 of that tick are missing. *)
Lemma sequence_numbers_may_have_gaps :
  execute_all empty Examples.store_gap = Ok Examples.db_gap
  /\ In Examples.event_seq5 (event_store Examples.db_gap)
  /\ ~ gap_free Examples.db_gap.
Proof.
  split; [reflexivity|]. split; [now left|].
  intros H.
  destruct (H Examples.event_seq5 (or_introl eq_refl) 0) as [e' [He' [_ [_ Hs]]]].
  - cbn. lia.
  - destruct He' as [<- | []]. discriminate Hs.
Qed.

(** ** Snapshots *)

Lemma after_refused db s e : execute db s = Err e -> after db s = db.
Proof. unfold after. now intros ->. Qed.

Lemma insert_snapshot_taken db s :
  Snapshot.well_typed s = true ->
  In (Snapshot.uq_snapshot_world_tick s)
     (map Snapshot.uq_snapshot_world_tick (snapshots db)) ->
  exists c, insert_snapshot db s = Err (AlreadyExists c).
Proof.
  intros Ht Hin. unfold insert_snapshot. rewrite Ht. cbn [check bind Ok].
  destruct (mem N.eqb (Snapshot.snapshot_id s) (snapshot_ids db)); cbn.
  - now exists "snapshots_pkey".
  - apply (mem_In eqb_uz eqb_uz_eq) in Hin. rewrite Hin. cbn.
    now exists "uq_snapshot_world_tick".
Qed.

(** C3: in every store the schema admits a world has at most one snapshot
    per tick, and a second capture at the world and tick of a stored snapshot
    fails with AlreadyExists and leaves the store, the first snapshot
    included, as it was. *)
Theorem snapshot_write_once (db : DB) :
  reachable db ->
  (forall s1 s2, In s1 (snapshots db) -> In s2 (snapshots db) ->
     Snapshot.world_id s1 = Snapshot.world_id s2 ->
     Snapshot.tick s1 = Snapshot.tick s2 -> s1 = s2)
  /\ (forall s, In s (snapshots db) ->
      forall snapshot_id now world_state agent_states,
        let row :=
          Snapshot.mk snapshot_id (Snapshot.world_id s) (Snapshot.tick s)
            world_state None now in
        (exists c,
            execute db (InsertSnapshot row) = Err (AlreadyExists c)
            /\ capture db snapshot_id now (Snapshot.world_id s)
                 (Snapshot.tick s) world_state agent_states
               = Err (AlreadyExists c))
        /\ after db (InsertSnapshot row) = db
        /\ In s (snapshots (after db (InsertSnapshot row)))).
Proof.
  intros Hr. apply reachable_valid in Hr. destruct Hr. split.
  - intros s1 s2 H1 H2 Ew Et.
    apply (unique_inj Snapshot.uq_snapshot_world_tick (snapshots db)); try assumption.
    unfold Snapshot.uq_snapshot_world_tick. congruence.
  - intros s Hs sid now ws ags row.
    assert (Hrow : exists c, insert_snapshot db row = Err (AlreadyExists c)).
    { apply insert_snapshot_taken.
      - unfold typed in ty_snapshots0. rewrite Forall_forall in ty_snapshots0.
        apply ty_snapshots0 in Hs. unfold Snapshot.well_typed in *. cbn.
        apply andb_true_iff in Hs. destruct Hs as [Hs _]. now rewrite Hs.
      - apply in_map_iff. exists s. split; [reflexivity | assumption]. }
    destruct Hrow as [c Hc].
    assert (Ha : after db (InsertSnapshot row) = db)
      by (eapply after_refused; exact Hc).
    split; [|split; [exact Ha | now rewrite Ha]].
    exists c. split; [exact Hc|].
    unfold capture. cbn [execute_all]. fold row. cbn [execute]. now rewrite Hc.
Qed.

Lemma db_snapshot_reachable : reachable Examples.db_snapshot.
Proof.
  apply (history_reachable Examples.store_snapshot Examples.db_snapshot).
  reflexivity.
Qed.

Lemma snapshot_write_once_witness :
  (exists c,
      execute Examples.db_snapshot (InsertSnapshot Examples.snapshot1_again)
      = Err (AlreadyExists c)
      /\ capture Examples.db_snapshot 201 9 1 1 "{A:[7,7]}" []
         = Err (AlreadyExists c))
  /\ after Examples.db_snapshot (InsertSnapshot Examples.snapshot1_again)
     = Examples.db_snapshot
  /\ In Examples.snapshot1
       (snapshots (after Examples.db_snapshot
                     (InsertSnapshot Examples.snapshot1_again))).
Proof.
  exact (proj2 (snapshot_write_once Examples.db_snapshot db_snapshot_reachable)
           Examples.snapshot1 (or_introl eq_refl) 201%N 9 "{A:[7,7]}" []).
Defined.

(** ** Causal parents *)

Lemma insert_event_refused_dangling db e k :
  EventStore.caused_by_event_id e = Some k ->
  ~ In k (EventStore.event_id e :: event_ids db) ->
  (exists err, insert_event db e = Err err)
  /\ (forall db1, insert_event db (EventStore.set_caused_by_event_id e None) = Ok db1 ->
      insert_event db e = Err (ReferentialIntegrity "event_store.caused_by_event_id")).
Proof.
  intros Hk Hn.
  assert (Hf : references (EventStore.caused_by_event_id e)
                 (EventStore.event_id e :: event_ids db) = false).
  { rewrite Hk. cbn [references]. now apply not_memN_In. }
  split.
  - unfold insert_event. rewrite Hf.
    repeat match goal with
           | |- context [check ?b ?x] =>
               destruct b; cbn [check bind Ok Err]; [|eexists; reflexivity]
           end.
    eexists; reflexivity.
  - intros db1 H. unfold insert_event in H. checks H.
    destruct e; cbn in *. unfold insert_event. cbn.
    unfold EventStore.well_typed, EventStore.ck_events_seq_nonneg,
      EventStore.uq_events_tick_seq in *. cbn in *.
    rewrite C, C0, C1, C2, C3, C4, C5. cbn. rewrite Hf. reflexivity.
Qed.

(** C5, as the schema has it: [caused_by_event_id] is a foreign key to
    [event_store.event_id] and nothing more.  In every store the schema
    admits the causal parent of a stored event is a stored event; an insert
    whose parent is no stored event is refused and writes nothing, with
    ReferentialIntegrity when the same row without a parent is accepted.
    Neither the world nor the tick of the parent is checked. *)
Theorem caused_by_references_stored_event (db : DB) :
  reachable db ->
  (forall e p, In e (event_store db) ->
     EventStore.caused_by_event_id e = Some p ->
     exists parent, In parent (event_store db)
                    /\ EventStore.event_id parent = p)
  /\ (forall e k, EventStore.caused_by_event_id e = Some k ->
        ~ In k (EventStore.event_id e :: event_ids db) ->
        (exists err, execute db (InsertEvent e) = Err err)
        /\ after db (InsertEvent e) = db
        /\ (forall db1,
              execute db (InsertEvent (EventStore.set_caused_by_event_id e None))
              = Ok db1 ->
              execute db (InsertEvent e)
              = Err (ReferentialIntegrity "event_store.caused_by_event_id"))).
Proof.
  intros Hr. apply reachable_valid in Hr. destruct Hr. split.
  - intros e p He Hp. unfold fk_null in *.
    rewrite Forall_forall in fk_events_caused_by0.
    specialize (fk_events_caused_by0 e He p Hp). unfold event_ids in *.
    apply in_map_iff in fk_events_caused_by0.
    destruct fk_events_caused_by0 as [parent [E Hin]]. now exists parent.
  - intros e k Hk Hn. cbn [execute].
    destruct (insert_event_refused_dangling db e k Hk Hn) as [[err He] Hri].
    split; [now exists err|]. split; [|exact Hri].
    eapply after_refused. cbn [execute]. exact He.
Qed.

Lemma db_forward_cause_reachable : reachable Examples.db_forward_cause.
Proof.
  apply (history_reachable Examples.store_forward_cause Examples.db_forward_cause).
  reflexivity.
Qed.

Lemma caused_by_references_stored_event_witness :
  (exists parent, In parent (event_store Examples.db_forward_cause)
                  /\ EventStore.event_id parent = 101%N)
  /\ execute Examples.db_forward_cause (InsertEvent Examples.event_orphan)
     = Err (ReferentialIntegrity "event_store.caused_by_event_id").
Proof.
  destruct (caused_by_references_stored_event Examples.db_forward_cause
              db_forward_cause_reachable) as [H1 H2].
  split.
  - apply (H1 Examples.event_early); [now left | reflexivity].
  - eapply (H2 Examples.event_orphan 999%N).
    + reflexivity.
    + cbn. intros [H|[H|[H|[]]]]; discriminate H.
    + reflexivity.
Defined.

(** The schema accepts an event at tick 1 whose causal parent is an event at
    tick 5. *)
Lemma cause_may_follow_effect :
  execute_all empty Examples.store_forward_cause = Ok Examples.db_forward_cause
  /\ In Examples.event_early (event_store Examples.db_forward_cause)
  /\ In Examples.event_late (event_store Examples.db_forward_cause)
  /\ EventStore.caused_by_event_id Examples.event_early
     = Some (EventStore.event_id Examples.event_late)
  /\ EventStore.tick Examples.event_early < EventStore.tick Examples.event_late.
Proof.
  split; [reflexivity|]. split; [now left|]. split; [right; now left|].
  split; [reflexivity|]. cbn. lia.
Qed.

(** ** Worlds *)

(** C7, as the schema has it: a world inserted without a status and a current
    tick has status CREATED and current tick 0; [status] is a [String(16)]
    column, and what every store the schema admits guarantees of a stored
    status is its width, not its membership in the four names. *)
Theorem world_defaults_and_status_width :
  (forall world_id name seed generator_version now,
      let w := World.new world_id name seed generator_version None None None now in
      World.status w = "CREATED" /\ World.current_tick w = 0)
  /\ (forall db, reachable db ->
      forall w, In w (worlds db) -> (String.length (World.status w) <= 16)%nat).
Proof.
  split; [intros; split; reflexivity|].
  intros db Hr w Hw. apply reachable_valid in Hr. destruct Hr.
  unfold typed in ty_worlds0. rewrite Forall_forall in ty_worlds0.
  apply ty_worlds0 in Hw. unfold World.well_typed in Hw.
  apply andb_true_iff in Hw. destruct Hw as [_ Hw]. now apply Nat.leb_le.
Qed.

Lemma db_bogus_reachable : reachable Examples.db_bogus.
Proof.
  apply (history_reachable [InsertWorld Examples.world_bogus] Examples.db_bogus).
  reflexivity.
Qed.

Lemma world_defaults_and_status_width_witness :
  (String.length (World.status Examples.world_bogus) <= 16)%nat.
Proof.
  exact (proj2 world_defaults_and_status_width Examples.db_bogus
           db_bogus_reachable Examples.world_bogus (or_introl eq_refl)).
Defined.

(** The schema accepts a world with the status BOGUS. *)
Lemma world_status_unconstrained :
  execute empty (InsertWorld Examples.world_bogus) = Ok Examples.db_bogus
  /\ In Examples.world_bogus (worlds Examples.db_bogus)
  /\ ~ In (World.status Examples.world_bogus) statuses.
Proof.
  split; [reflexivity|]. split; [now left|].
  cbn. intros [H|[H|[H|[H|[]]]]]; discriminate H.
Qed.

(** ** Relationships *)

(** C8: the key of a relationship is the ordered triple
    [(world_id, a_agent_id, b_agent_id)].  Where a row from [a] to [b] is
    stored, the row from [b] to [a], with whatever attribute values, is
    accepted when that key is free; it is added as it is, and the row from
    [a] to [b] stays as it is. *)
Theorem relationship_is_directed (db : DB) (r1 r2 : Relationship.t) :
  reachable db ->
  In r1 (relationships db) ->
  Relationship.world_id r2 = Relationship.world_id r1 ->
  Relationship.a_agent_id r2 = Relationship.b_agent_id r1 ->
  Relationship.b_agent_id r2 = Relationship.a_agent_id r1 ->
  Relationship.a_agent_id r1 <> Relationship.b_agent_id r1 ->
  Relationship.well_typed r2 = true ->
  ~ In (Relationship.pk r2) (map Relationship.pk (relationships db)) ->
  Relationship.pk r2 <> Relationship.pk r1
  /\ execute db (InsertRelationship r2) = Ok (after db (InsertRelationship r2))
  /\ relationships (after db (InsertRelationship r2)) = r2 :: relationships db
  /\ In r1 (relationships (after db (InsertRelationship r2)))
  /\ In r2 (relationships (after db (InsertRelationship r2))).
Proof.
  intros Hr H1 Ew Ea Eb Hab Ht Hn. apply reachable_valid in Hr. destruct Hr.
  unfold fk in *.
  rewrite Forall_forall in fk_relationships_world0, fk_relationships_a0,
    fk_relationships_b0.
  assert (E : insert_relationship db r2
              = Ok (mkDB (worlds db) (world_tiles db) (world_maps db) (agents db)
                      (r2 :: relationships db) (event_store db) (snapshots db)
                      (agent_snapshots db))).
  { unfold insert_relationship. rewrite Ht.
    apply (not_mem_In eqb3 eqb3_eq) in Hn. rewrite Hn.
    rewrite Ew, Ea, Eb.
    rewrite (proj2 (memN_In _ _) (fk_relationships_world0 r1 H1)).
    rewrite (proj2 (memN_In _ _) (fk_relationships_a0 r1 H1)).
    rewrite (proj2 (memN_In _ _) (fk_relationships_b0 r1 H1)).
    reflexivity. }
  unfold after. cbn [execute]. rewrite E. cbn.
  repeat split; auto.
  unfold Relationship.pk. intros [= _ Hc _]. congruence.
Qed.

Lemma db_directed_reachable : reachable Examples.db_directed.
Proof.
  apply (history_reachable Examples.store_directed Examples.db_directed).
  reflexivity.
Qed.

Lemma relationship_is_directed_witness :
  Relationship.pk Examples.relationCA <> Relationship.pk Examples.relationAC
  /\ execute Examples.db_directed (InsertRelationship Examples.relationCA)
     = Ok (after Examples.db_directed (InsertRelationship Examples.relationCA))
  /\ relationships
       (after Examples.db_directed (InsertRelationship Examples.relationCA))
     = Examples.relationCA :: relationships Examples.db_directed
  /\ In Examples.relationAC
       (relationships
          (after Examples.db_directed (InsertRelationship Examples.relationCA)))
  /\ In Examples.relationCA
       (relationships
          (after Examples.db_directed (InsertRelationship Examples.relationCA))).
Proof.
  apply (relationship_is_directed Examples.db_directed Examples.relationAC
           Examples.relationCA).
  - exact db_directed_reachable.
  - now left.
  - reflexivity.
  - reflexivity.
  - reflexivity.
  - discriminate.
  - reflexivity.
  - cbn. intros [H|[]]. discriminate H.
Defined.

(** ** What a statement does to a stored event *)













(** ** Deleting a world *)

Lemma filter_all {A : Type} (p : A -> bool) (l : list A) :
  (forall r, In r l -> p r = true) -> filter p l = l.
Proof.
  induction l as [|r l IH]; simpl; intros H; [reflexivity|].
  rewrite (H r) by now left. f_equal. apply IH. intros; apply H; now right.
Qed.

Lemma filter_narrow {A : Type} (p q : A -> bool) (l : list A) :
  (forall r, In r l -> p r = true -> q r = true) ->
  filter p (filter q l) = filter p l.
Proof.
  induction l as [|r l IH]; simpl; intros H; [reflexivity|].
  assert (IH' : filter p (filter q l) = filter p l)
    by (apply IH; intros; apply H; auto).
  destruct (q r) eqn:Eq; simpl.
  - now rewrite IH'.
  - destruct (p r) eqn:Ep; [|exact IH'].
    rewrite (H r) in Eq by auto. discriminate.
Qed.

Lemma map_fixed {A : Type} (f : A -> A) (l : list A) :
  (forall r, In r l -> f r = r) -> map f l = l.
Proof.
  induction l as [|r l IH]; simpl; intros H; [reflexivity|].
  rewrite (H r) by now left. f_equal. apply IH. intros; apply H; now right.
Qed.

Lemma set_null_fixed gone o :
  (forall k, o = Some k -> ~ In k gone) -> set_null gone o = o.
Proof.
  destruct o as [k|]; simpl; [|reflexivity]. intros H.
  specialize (H k eq_refl). apply not_memN_In in H. now rewrite H.
Qed.

(** An agent of another world is not among the agents deleted with [w]. *)
Lemma agent_in_kept db k w w' :
  agent_in db k w' -> w' <> w ->
  ~ In k (map Agent.agent_id
            (filter (fun r => (Agent.world_id r =? w)%N) (agents db))).
Proof.
  intros Ha Hw Hin. apply in_map_iff in Hin. destruct Hin as [a [E Hf]].
  apply filter_In in Hf. destruct Hf as [Hin Hf]. apply N.eqb_eq in Hf.
  specialize (Ha a Hin E). congruence.
Qed.

Lemma DB_ext (a b : DB) :
  worlds a = worlds b -> world_tiles a = world_tiles b ->
  world_maps a = world_maps b -> agents a = agents b ->
  relationships a = relationships b -> event_store a = event_store b ->
  snapshots a = snapshots b -> agent_snapshots a = agent_snapshots b ->
  a = b.
Proof. destruct a, b; cbn; intros; subst; reflexivity. Qed.

Lemma delete_world_closed w db :
  valid db -> world_closed db -> delete_world w db = without_world w db.
Proof.
  intros Hv Hc. destruct Hc.
  rewrite Forall_forall in *.
  apply DB_ext; try reflexivity.
  - (* relationships *)
    cbn. apply filter_all. intros r Hr. apply filter_In in Hr.
    destruct Hr as [Hr Hp]. apply negb_true_iff, N.eqb_neq in Hp.
    apply andb_true_iff. split; apply kept_true.
    + eapply agent_in_kept; [apply closed_relationship_a0; exact Hr | exact Hp].
    + eapply agent_in_kept; [apply closed_relationship_b0; exact Hr | exact Hp].
  - (* event_store *)
    cbn.
    rewrite (filter_map_commute _ (fun e => negb (EventStore.world_id e =? w)%N))
      by (intros []; reflexivity).
    rewrite map_map. apply map_fixed. intros e He.
    apply filter_In in He. destruct He as [He Hp].
    apply negb_true_iff, N.eqb_neq in Hp.
    pose proof (closed_event_actor0 e He) as Ha.
    pose proof (closed_event_target0 e He) as Ht.
    pose proof (closed_event_caused_by0 e He) as Hb.
    destruct e as [eid ew tk sq ty ac tg ex ey pl cb sv ca].
    cbn [EventStore.set_caused_by_event_id EventStore.set_target_agent_id
         EventStore.set_actor_agent_id EventStore.event_id EventStore.world_id
         EventStore.tick EventStore.seq_in_tick EventStore.event_type
         EventStore.actor_agent_id EventStore.target_agent_id EventStore.x
         EventStore.y EventStore.payload_json EventStore.caused_by_event_id
         EventStore.schema_version EventStore.created_at] in *.
    rewrite (set_null_fixed _ ac)
      by (intros k Hk; eapply agent_in_kept; [exact (Ha k Hk) | exact Hp]).
    rewrite (set_null_fixed _ tg)
      by (intros k Hk; eapply agent_in_kept; [exact (Ht k Hk) | exact Hp]).
    rewrite (set_null_fixed _ cb); [reflexivity|].
    intros k Hk Hin.
    apply in_map_iff in Hin. destruct Hin as [x [E Hx]].
    apply filter_In in Hx. destruct Hx as [Hx Hwx].
    apply in_map_iff in Hx. destruct Hx as [x0 [<- Hx0]].
    cbn in E, Hwx. apply N.eqb_eq in Hwx.
    specialize (Hb k Hk x0 Hx0 E). congruence.
  - (* agent_snapshots *)
    cbn. apply filter_narrow. intros r Hr Hp. apply kept_true in Hp. apply kept_true.
    destruct Hv. unfold fk in fk_agent_snapshots_snapshot0.
    rewrite Forall_forall in fk_agent_snapshots_snapshot0.
    specialize (fk_agent_snapshots_snapshot0 r Hr). unfold snapshot_ids in *.
    apply in_map_iff in fk_agent_snapshots_snapshot0.
    destruct fk_agent_snapshots_snapshot0 as [s [E Hs]].
    eapply agent_in_kept; [eapply closed_agent_snapshot0; eassumption|].
    intros Hw. apply Hp. apply in_map_iff. exists s. split; [assumption|].
    apply filter_In. split; [assumption | now apply N.eqb_eq].
Qed.

(** C6, as the schema has it: after the deletion of a world no table holds a
    row of that world, no per-agent capture of one of its snapshots or agents
    is left, and a read of that world fails with NotFound.  The rows of the
    other worlds stay as they are when no reference leaves the world of the
    row that holds it; the schema itself does not keep references inside a
    world. *)
Theorem delete_world_cascades (db : DB) (w : uuid) :
  let db' := delete_world w db in
  (none_of World.world_id w (worlds db')
   /\ none_of WorldTile.world_id w (world_tiles db')
   /\ none_of WorldMap.world_id w (world_maps db')
   /\ none_of Agent.world_id w (agents db')
   /\ none_of Relationship.world_id w (relationships db')
   /\ none_of EventStore.world_id w (event_store db')
   /\ none_of Snapshot.world_id w (snapshots db'))
  /\ (forall r, In r (agent_snapshots db') ->
        (forall s, In s (snapshots db) ->
           Snapshot.snapshot_id s = AgentSnapshot.snapshot_id r ->
           Snapshot.world_id s <> w)
        /\ (forall a, In a (agents db) ->
              Agent.agent_id a = AgentSnapshot.agent_id r ->
              Agent.world_id a <> w))
  /\ (forall readable from_tick to_tick,
        read readable db' w from_tick to_tick = Err NotFound)
  /\ (valid db -> world_closed db -> db' = without_world w db).
Proof.
  intros db'. split; [apply delete_world_none|]. split; [|split].
  - intros r Hr. cbn in Hr. apply filter_In in Hr. destruct Hr as [Hr Hs].
    apply filter_In in Hr. destruct Hr as [Hr Ha].
    apply kept_true in Hs, Ha. split.
    + intros s Hin E Hw. apply Hs. apply in_map_iff. exists s.
      split; [assumption|]. apply filter_In. split; [assumption | now apply N.eqb_eq].
    + intros a Hin E Hw. apply Ha. apply in_map_iff. exists a.
      split; [assumption|]. apply filter_In. split; [assumption | now apply N.eqb_eq].
  - intros readable f t. unfold read.
    assert (Hn : mem N.eqb w (world_ids db') = false).
    { apply not_memN_In. intros Hin. unfold world_ids in Hin.
      apply in_map_iff in Hin. destruct Hin as [x [E Hx]].
      destruct (delete_world_none w db) as [H _]. unfold none_of in H.
      rewrite Forall_forall in H. now apply (H x Hx). }
    now rewrite Hn.
  - apply delete_world_closed.
Qed.

Lemma db_closed_reachable : reachable Examples.db_closed.
Proof.
  apply (history_reachable Examples.store_closed Examples.db_closed). reflexivity.
Qed.

Lemma db_closed_closed : world_closed Examples.db_closed.
Proof.
  constructor; apply Forall_forall; intros r Hr; vm_compute in Hr;
    repeat match goal with
           | H : _ \/ _ |- _ => destruct H as [H | H]
           | H : False |- _ => destruct H
           end; subst r.
  all: unfold agent_in, event_in; intros;
    repeat match goal with
           | H : In _ _ |- _ => vm_compute in H
           | H : _ \/ _ |- _ => destruct H as [H | H]
           | H : False |- _ => destruct H
           end; subst; vm_compute in *; congruence.
Qed.

Lemma delete_world_cascades_witness :
  delete_world 1 Examples.db_closed = without_world 1 Examples.db_closed
  /\ read Examples.any_version (delete_world 1 Examples.db_closed) 1 0 9
     = Err NotFound
  /\ agents (delete_world 1 Examples.db_closed) = [Examples.agentB].
Proof.
  destruct (delete_world_cascades Examples.db_closed 1) as (_ & _ & Hread & Hclosed).
  split; [|split].
  - apply Hclosed; [apply reachable_valid, db_closed_reachable | apply db_closed_closed].
  - apply Hread.
  - reflexivity.
Defined.

(** The schema accepts a relationship of world 2 from an agent of world 1 and
    an event of world 2 whose actor is that agent; deleting world 1 deletes
    the relationship and rewrites the event. *)
Lemma delete_world_reaches_other_worlds :
  execute_all empty Examples.store_two_worlds = Ok Examples.db_two_worlds
  /\ In Examples.relationAB (relationships Examples.db_two_worlds)
  /\ Relationship.world_id Examples.relationAB = 2%N
  /\ In Examples.event_visit (event_store Examples.db_two_worlds)
  /\ EventStore.world_id Examples.event_visit = 2%N
  /\ relationships (delete_world 1 Examples.db_two_worlds) = []
  /\ ~ In Examples.event_visit (event_store (delete_world 1 Examples.db_two_worlds)).
Proof.
  split; [vm_compute; reflexivity|].
  split; [vm_compute; now left|]. split; [reflexivity|].
  split; [vm_compute; now left|]. split; [reflexivity|].
  split; [vm_compute; reflexivity|].
  vm_compute. intros [H|[]]. discriminate H.
Qed.

(** ** Replay *)

Lemma event_leb_total e1 e2 : event_leb e1 e2 = false -> event_leb e2 e1 = true.
Proof.
  unfold event_leb. intros H.
  apply orb_false_iff in H. destruct H as [H1 H2].
  apply Z.ltb_ge in H1.
  destruct (EventStore.tick e2 <? EventStore.tick e1) eqn:E; [reflexivity|].
  apply Z.ltb_ge in E. assert (Et : EventStore.tick e1 = EventStore.tick e2) by lia.
  rewrite Et, Z.eqb_refl in *. cbn in *. apply Z.leb_gt in H2. apply Z.leb_le. lia.
Qed.

Lemma event_leb_trans e1 e2 e3 :
  event_leb e1 e2 = true -> event_leb e2 e3 = true -> event_leb e1 e3 = true.
Proof.
  unfold event_leb. rewrite !orb_true_iff, !andb_true_iff, !Z.ltb_lt, !Z.eqb_eq, !Z.leb_le.
  lia.
Qed.

Lemma event_leb_tick e1 e2 :
  event_leb e1 e2 = true -> EventStore.tick e1 <= EventStore.tick e2.
Proof.
  unfold event_leb. rewrite !orb_true_iff, !andb_true_iff, !Z.ltb_lt, !Z.eqb_eq. lia.
Qed.

Lemma insert_event_sorted_In e l x :
  In x (insert_event_sorted e l) <-> x = e \/ In x l.
Proof.
  induction l as [|h t IH]; simpl.
  - intuition.
  - destruct (event_leb e h); simpl; [intuition|]. rewrite IH. intuition.
Qed.

Lemma insert_event_sorted_sorted e l :
  StronglySorted le_event l -> StronglySorted le_event (insert_event_sorted e l).
Proof.
  induction 1 as [|h t Hs IH Hh]; simpl.
  - repeat constructor.
  - destruct (event_leb e h) eqn:E.
    + constructor; [now constructor|]. constructor; [exact E|].
      rewrite Forall_forall in *. intros x Hx. eapply event_leb_trans; [exact E|].
      now apply Hh.
    + constructor; [exact IH|]. rewrite Forall_forall in *. intros x Hx.
      apply insert_event_sorted_In in Hx. destruct Hx as [-> | Hx]; [|now apply Hh].
      now apply event_leb_total.
Qed.

Lemma order_events_sorted l : StronglySorted le_event (order_events l).
Proof.
  induction l as [|e l IH]; simpl; [constructor|].
  now apply insert_event_sorted_sorted.
Qed.

Lemma insert_event_sorted_head e l :
  Forall (le_event e) l -> insert_event_sorted e l = e :: l.
Proof.
  destruct l as [|h t]; simpl; [reflexivity|]. intros H.
  inversion H as [|? ? Hh _]; subst. unfold le_event in Hh. now rewrite Hh.
Qed.

Lemma filter_insert_event_sorted (p : EventStore.t -> bool) e l :
  StronglySorted le_event l ->
  filter p (insert_event_sorted e l)
  = if p e then insert_event_sorted e (filter p l) else filter p l.
Proof.
  induction 1 as [|h t Hs IH Hh]; simpl.
  - destruct (p e); reflexivity.
  - destruct (event_leb e h) eqn:E; simpl.
    + destruct (p e) eqn:Ep; [|reflexivity].
      symmetry. apply insert_event_sorted_head.
      assert (Hall : Forall (le_event e) (h :: t)).
      { constructor; [exact E|]. rewrite Forall_forall in *. intros x Hx.
        eapply event_leb_trans; [exact E | now apply Hh]. }
      change (Forall (le_event e) (filter p (h :: t))).
      now apply Forall_filter_keep.
    + rewrite IH. destruct (p h) eqn:Eh, (p e) eqn:Ep; simpl; try reflexivity.
      now rewrite E.
Qed.

Lemma filter_order_events (p : EventStore.t -> bool) l :
  filter p (order_events l) = order_events (filter p l).
Proof.
  induction l as [|e l IH]; simpl; [reflexivity|].
  rewrite filter_insert_event_sorted by apply order_events_sorted.
  rewrite IH. destruct (p e); reflexivity.
Qed.

(** A sorted log splits at a tick. *)
Lemma filter_none {A : Type} (p : A -> bool) (l : list A) :
  Forall (fun x => p x = false) l -> filter p l = [].
Proof.
  induction 1 as [|x l Hx _ IH]; simpl; [reflexivity|]. now rewrite Hx.
Qed.

Lemma sorted_split (s : Z) l :
  StronglySorted le_event l ->
  l = (filter (fun e => EventStore.tick e <=? s) l
       ++ filter (fun e => s <? EventStore.tick e) l)%list.
Proof.
  induction 1 as [|h t Hs IH Hh]; simpl; [reflexivity|].
  destruct (EventStore.tick h <=? s) eqn:E.
  - apply Z.leb_le in E.
    assert (E' : (s <? EventStore.tick h) = false) by now apply Z.ltb_ge.
    rewrite E'. simpl. now rewrite <- IH.
  - apply Z.leb_gt in E.
    assert (E' : (s <? EventStore.tick h) = true) by now apply Z.ltb_lt.
    rewrite E'.
    assert (Hnone : filter (fun e => EventStore.tick e <=? s) t = []).
    { apply filter_none. rewrite Forall_forall in *. intros x Hx.
      apply Hh, event_leb_tick in Hx. apply Z.leb_gt. lia. }
    rewrite Hnone in *. simpl in *. now rewrite <- IH.
Qed.

Lemma filter_conj {A : Type} (p q r : A -> bool) (l : list A) :
  (forall x, r x = q x && p x) -> filter p (filter q l) = filter r l.
Proof.
  intros H. induction l as [|x l IH]; simpl; [reflexivity|].
  rewrite H. destruct (q x); simpl; [|exact IH].
  destruct (p x); now rewrite IH.
Qed.

Lemma window_split db w s t :
  -1 <= s -> s <= t ->
  window db w 0 t = (window db w 0 s ++ window db w (s + 1) t)%list.
Proof.
  intros H0 Hst. unfold window.
  rewrite (sorted_split s (order_events _)) at 1 by apply order_events_sorted.
  rewrite !filter_order_events. f_equal; f_equal; apply filter_conj; intros e.
  - destruct (EventStore.world_id e =? w)%N; cbn; [|reflexivity].
    destruct (0 <=? EventStore.tick e); cbn; [|reflexivity].
    destruct (EventStore.tick e <=? s) eqn:E1, (EventStore.tick e <=? t) eqn:E2;
      try reflexivity.
    apply Z.leb_le in E1. apply Z.leb_gt in E2. lia.
  - destruct (EventStore.world_id e =? w)%N; cbn; [|reflexivity].
    destruct (0 <=? EventStore.tick e) eqn:E0, (s + 1 <=? EventStore.tick e) eqn:E1,
      (s <? EventStore.tick e) eqn:E2, (EventStore.tick e <=? t); cbn;
      try reflexivity;
      rewrite ?Z.leb_le, ?Z.leb_gt, ?Z.ltb_lt, ?Z.ltb_ge in *; lia.
Qed.

Lemma latest_before_Some db w t s :
  latest_before db w t = Some s ->
  In s (snapshots db) /\ Snapshot.world_id s = w /\ Snapshot.tick s <= t.
Proof.
  unfold latest_before. induction (snapshots db) as [|x l IH]; simpl; [discriminate|].
  destruct ((Snapshot.world_id x =? w)%N && (Snapshot.tick x <=? t)) eqn:E.
  - apply andb_true_iff in E. destruct E as [Ew Et].
    apply N.eqb_eq in Ew. apply Z.leb_le in Et.
    unfold later. destruct (fold_right _ None l) as [b|] eqn:Eb.
    + destruct (Snapshot.tick b <? Snapshot.tick x).
      * intros [= <-]. auto.
      * intros [= <-]. destruct (IH eq_refl) as (? & ? & ?). auto.
    + intros [= <-]. auto.
  - intros H. destruct (IH H) as (? & ? & ?). auto.
Qed.

Section Replay.
Variable State : Type.
Variable initial : State.
Variable handler : State -> EventStore.t -> State.
Variable load : Snapshot.t -> list AgentSnapshot.t -> option State.
Variable readable : EventStore.t -> bool.

Lemma read_window db w f t :
  read readable db w f t
  = (check (mem N.eqb w (world_ids db)) NotFound ;;
     check (forallb readable (window db w f t)) SchemaMismatch ;;
     Ok (window db w f t)).
Proof. reflexivity. Qed.

(** C2, for the snapshots that hold what a replay gives: with no snapshot at
    or before the tick, [state_at] is the full replay; with a latest snapshot
    whose tick is not negative and whose stored state is the full replay up
    to its tick, [state_at], which folds the events after the snapshot, is
    the full replay from tick 0. *)
Theorem snapshot_replay_equals_full_replay (db : DB) (w : uuid) (t : Z) :
  (latest_before db w t = None ->
   state_at State initial handler load readable db w t
   = replay_from_zero State initial handler readable db w t)
  /\ (forall s st,
        latest_before db w t = Some s ->
        0 <= Snapshot.tick s ->
        load s (captures db s) = Some st ->
        replay_from_zero State initial handler readable db w (Snapshot.tick s)
        = Ok st ->
        state_at State initial handler load readable db w t
        = replay_from_zero State initial handler readable db w t).
Proof.
  split.
  - intros H. unfold state_at. now rewrite H.
  - intros s st Hs H0 Hl Hf.
    destruct (latest_before_Some db w t s Hs) as (_ & _ & Hst).
    unfold state_at. rewrite Hs, Hl.
    unfold replay_from_zero in *. rewrite !read_window in *.
    destruct (mem N.eqb w (world_ids db)); cbn [check bind Ok Err] in *;
      [|discriminate].
    rewrite (window_split db w (Snapshot.tick s) t) by lia.
    rewrite forallb_app.
    destruct (forallb readable (window db w 0 (Snapshot.tick s)));
      cbn [check bind Ok Err andb] in *; [|discriminate].
    injection Hf as <-.
    destruct (forallb readable (window db w (Snapshot.tick s + 1) t));
      cbn [check bind Ok Err]; [|reflexivity].
    now rewrite fold_left_app.
Qed.

End Replay.

Lemma db_scenario_reachable : reachable Examples.db_scenario.
Proof.
  apply (history_reachable Examples.store_scenario Examples.db_scenario).
  reflexivity.
Qed.

(** The scenario of the specification. *)
Lemma snapshot_replay_equals_full_replay_witness :
  state_at Examples.journal "" Examples.journal_handler Examples.journal_load
    Examples.any_version Examples.db_scenario 1 2
  = replay_from_zero Examples.journal "" Examples.journal_handler
      Examples.any_version Examples.db_scenario 1 2.
Proof.
  apply (proj2 (snapshot_replay_equals_full_replay Examples.journal ""
                  Examples.journal_handler Examples.journal_load
                  Examples.any_version Examples.db_scenario 1 2)
           Examples.snapshot_tick1 "move;rest;").
  - reflexivity.
  - cbn. lia.
  - reflexivity.
  - reflexivity.
Defined.

(** A snapshot captured at tick 1 with the state of the full replay, and an
    event appended at tick 1 afterwards: the two computations of the state
    at tick 2 differ. *)
Lemma stale_snapshot_replay_differs :
  execute_all empty Examples.store_scenario = Ok Examples.db_scenario
  /\ replay_from_zero Examples.journal "" Examples.journal_handler
       Examples.any_version Examples.db_scenario 1 1
     = Ok (Snapshot.world_state_json Examples.snapshot_tick1)
  /\ execute Examples.db_scenario (InsertEvent Examples.talk1)
     = Ok Examples.db_stale
  /\ state_at Examples.journal "" Examples.journal_handler Examples.journal_load
       Examples.any_version Examples.db_stale 1 2
     = Ok "move;rest;walk;"
  /\ replay_from_zero Examples.journal "" Examples.journal_handler
       Examples.any_version Examples.db_stale 1 2
     = Ok "move;rest;talk;walk;"
  /\ state_at Examples.journal "" Examples.journal_handler Examples.journal_load
       Examples.any_version Examples.db_stale 1 2
     <> replay_from_zero Examples.journal "" Examples.journal_handler
          Examples.any_version Examples.db_stale 1 2.
Proof.
  split; [vm_compute; reflexivity|]. split; [vm_compute; reflexivity|].
  split; [vm_compute; reflexivity|]. split; [vm_compute; reflexivity|].
  split; [vm_compute; reflexivity|]. vm_compute. discriminate.
Qed.

(** ** More of the schema: deletions *)

(** Deleting a world none of whose rows is stored deletes the row of
    [worlds] and nothing else. *)
Lemma delete_world_childless w db :
  none_of WorldTile.world_id w (world_tiles db) ->
  none_of WorldMap.world_id w (world_maps db) ->
  none_of Agent.world_id w (agents db) ->
  none_of Relationship.world_id w (relationships db) ->
  none_of EventStore.world_id w (event_store db) ->
  none_of Snapshot.world_id w (snapshots db) ->
  delete_world w db = delete_world_row w db.
Proof.
  unfold none_of. rewrite !Forall_forall. intros Ht Hm Ha Hr He Hs.
  assert (Hga : filter (fun r => (Agent.world_id r =? w)%N) (agents db) = []).
  { apply filter_none. apply Forall_forall. intros r Hin.
    apply N.eqb_neq. now apply Ha. }
  assert (Hge : forall l,
             (forall r, In r l -> EventStore.world_id r <> w) ->
             filter (fun r => (EventStore.world_id r =? w)%N) l = []).
  { intros l Hl. apply filter_none. apply Forall_forall. intros r Hin.
    apply N.eqb_neq. now apply Hl. }
  assert (Hgs : filter (fun r => (Snapshot.world_id r =? w)%N) (snapshots db) = []).
  { apply filter_none. apply Forall_forall. intros r Hin.
    apply N.eqb_neq. now apply Hs. }
  assert (Hkeep : forall A (col : A -> uuid) (l : list A),
             (forall r, In r l -> col r <> w) ->
             filter (fun r => negb (col r =? w)%N) l = l).
  { intros A col l Hl. apply filter_all. intros r Hin.
    apply negb_true_iff, N.eqb_neq. now apply Hl. }
  assert (Hactor : map (fun e =>
             EventStore.set_target_agent_id
               (EventStore.set_actor_agent_id e
                  (set_null [] (EventStore.actor_agent_id e)))
               (set_null [] (EventStore.target_agent_id e))) (event_store db)
           = event_store db).
  { apply map_fixed. intros e _. rewrite !set_null_fixed by (intros ? _ []).
    now destruct e. }
  apply DB_ext; cbn; rewrite ?Hga; cbn; rewrite ?Hactor, ?Hgs; cbn;
    try reflexivity.
  - now apply (Hkeep _ WorldTile.world_id).
  - now apply (Hkeep _ WorldMap.world_id).
  - now apply (Hkeep _ Agent.world_id).
  - rewrite filter_all by reflexivity. now apply (Hkeep _ Relationship.world_id).
  - rewrite (Hge _ He). rewrite (Hkeep _ EventStore.world_id) by assumption.
    apply map_fixed. intros e _. rewrite set_null_fixed by (intros ? _ []).
    now destruct e.
  - now apply (Hkeep _ Snapshot.world_id).
  - rewrite !filter_all by reflexivity. reflexivity.
Qed.

(** Deleting a world of which nothing is stored changes nothing. *)
Lemma delete_world_absent w db :
  none_of World.world_id w (worlds db) ->
  none_of WorldTile.world_id w (world_tiles db) ->
  none_of WorldMap.world_id w (world_maps db) ->
  none_of Agent.world_id w (agents db) ->
  none_of Relationship.world_id w (relationships db) ->
  none_of EventStore.world_id w (event_store db) ->
  none_of Snapshot.world_id w (snapshots db) ->
  delete_world w db = db.
Proof.
  intros Hw Ht Hm Ha Hr He Hs.
  rewrite delete_world_childless by assumption.
  apply DB_ext; try reflexivity.
  cbn [worlds delete_world_row]. apply filter_all. intros r Hin.
  unfold none_of in Hw. rewrite Forall_forall in Hw.
  apply negb_true_iff, N.eqb_neq. now apply Hw.
Qed.

(** Deleting a world twice is deleting it once. *)
Theorem delete_world_idempotent (w : uuid) (db : DB) :
  delete_world w (delete_world w db) = delete_world w db.
Proof.
  pose proof (delete_world_none w db) as H. cbv zeta in H.
  apply delete_world_absent; apply H.
Qed.

(** Inserting a world and deleting it again gives the store back. *)
Theorem delete_inserted_world (db db' : DB) (w : World.t) :
  valid db ->
  execute db (InsertWorld w) = Ok db' ->
  execute db' (DeleteWorld (World.world_id w)) = Ok db.
Proof.
  intros Hv H. cbn [execute] in *. f_equal.
  unfold insert_world in H. checks H. facts. destruct Hv.
  unfold fk in *. ids.
  assert (Hfresh : forall A (col : A -> uuid) (rows : list A),
             Forall (fun r => In (col r) (map World.world_id (worlds db))) rows ->
             none_of col (World.world_id w) rows).
  { intros A col rows Hfk. unfold none_of. rewrite Forall_forall in *.
    intros r Hin E. apply C0. rewrite <- E. now apply Hfk. }
  rewrite delete_world_childless by (cbn; now apply Hfresh).
  apply DB_ext; try reflexivity.
  cbn. rewrite N.eqb_refl. cbn. apply filter_all. intros r Hin.
  apply negb_true_iff, N.eqb_neq. intros E. apply C0. rewrite <- E.
  now apply in_map.
Qed.

Lemma delete_inserted_world_witness :
  execute (history (Examples.store_closed ++ [InsertWorld Examples.world_bogus]))
    (DeleteWorld 3)
  = Ok Examples.db_closed.
Proof.
  apply (delete_inserted_world Examples.db_closed
           (history (Examples.store_closed ++ [InsertWorld Examples.world_bogus]))
           Examples.world_bogus).
  - apply reachable_valid, db_closed_reachable.
  - vm_compute. reflexivity.
Defined.

(** The rows the deletion of an agent takes with it. *)
Theorem delete_agent_cascade (db : DB) (k : uuid) :
  reachable db ->
  let db' := delete_agent k db in
  (forall a, In a (agents db') <-> In a (agents db) /\ Agent.agent_id a <> k)
  /\ (forall r, In r (relationships db') <->
        In r (relationships db)
        /\ Relationship.a_agent_id r <> k /\ Relationship.b_agent_id r <> k)
  /\ (forall r, In r (agent_snapshots db') <->
        In r (agent_snapshots db) /\ AgentSnapshot.agent_id r <> k)
  /\ map EventStore.event_id (event_store db')
     = map EventStore.event_id (event_store db)
  /\ worlds db' = worlds db /\ world_tiles db' = world_tiles db
  /\ world_maps db' = world_maps db /\ snapshots db' = snapshots db.
Proof.
  intros Hr db'. apply reachable_valid in Hr. destruct Hr.
  assert (Hgone : forall x,
             In x (agent_ids db) ->
             (kept (map Agent.agent_id
                      (filter (fun r => (Agent.agent_id r =? k)%N) (agents db))) x
              = true <-> x <> k)).
  { intros x Hx. rewrite kept_true. split.
    - intros Hn E. apply Hn. subst x. unfold agent_ids in Hx.
      apply in_map_iff in Hx. destruct Hx as [a [E Ha]].
      apply in_map_iff. exists a. split; [assumption|].
      apply filter_In. split; [assumption | now apply N.eqb_eq].
    - intros Hn Hin. apply in_map_iff in Hin. destruct Hin as [a [E Ha]].
      apply filter_In in Ha. destruct Ha as [_ Ha]. apply N.eqb_eq in Ha.
      congruence. }
  unfold fk in *. rewrite Forall_forall in *.
  subst db'. unfold delete_agent, delete_agents_where.
  cbn [worlds world_tiles world_maps agents relationships event_store
       snapshots agent_snapshots].
  split; [|split; [|split; [|split]]].
  - intros a. rewrite filter_In, negb_true_iff, N.eqb_neq. reflexivity.
  - intros r. rewrite filter_In, andb_true_iff. split.
    + intros (Hin & Ha & Hb). split; [assumption|]. split.
      * now apply (Hgone _ (fk_relationships_a0 r Hin)).
      * now apply (Hgone _ (fk_relationships_b0 r Hin)).
    + intros (Hin & Ha & Hb). split; [assumption|]. split.
      * now apply (Hgone _ (fk_relationships_a0 r Hin)).
      * now apply (Hgone _ (fk_relationships_b0 r Hin)).
  - intros r. rewrite filter_In. split.
    + intros (Hin & Ha). split; [assumption|].
      now apply (Hgone _ (fk_agent_snapshots_agent0 r Hin)).
    + intros (Hin & Ha). split; [assumption|].
      now apply (Hgone _ (fk_agent_snapshots_agent0 r Hin)).
  - apply keys_of_map. intros []. reflexivity.
  - repeat split.
Qed.

Lemma delete_agent_cascade_witness :
  (forall r, In r (relationships (delete_agent 10 Examples.db_two_worlds)) <->
     In r (relationships Examples.db_two_worlds)
     /\ Relationship.a_agent_id r <> 10%N /\ Relationship.b_agent_id r <> 10%N)
  /\ map EventStore.event_id (event_store (delete_agent 10 Examples.db_two_worlds))
     = map EventStore.event_id (event_store Examples.db_two_worlds).
Proof.
  pose proof (delete_agent_cascade Examples.db_two_worlds 10
                (history_reachable Examples.store_two_worlds
                   Examples.db_two_worlds eq_refl)) as H.
  cbv zeta in H. destruct H as (_ & Hrel & _ & Hev & _).
  split; [exact Hrel | exact Hev].
Defined.

(** The rows the deletion of a snapshot takes with it. *)
Theorem delete_snapshot_cascade (db : DB) (k : uuid) :
  reachable db ->
  let db' := delete_snapshot k db in
  (forall s, In s (snapshots db') <->
     In s (snapshots db) /\ Snapshot.snapshot_id s <> k)
  /\ (forall r, In r (agent_snapshots db') <->
        In r (agent_snapshots db) /\ AgentSnapshot.snapshot_id r <> k)
  /\ worlds db' = worlds db /\ world_tiles db' = world_tiles db
  /\ world_maps db' = world_maps db /\ agents db' = agents db
  /\ relationships db' = relationships db /\ event_store db' = event_store db.
Proof.
  intros Hr db'. apply reachable_valid in Hr. destruct Hr.
  unfold fk in *. rewrite Forall_forall in *.
  subst db'. unfold delete_snapshot, delete_snapshots_where.
  cbn [worlds world_tiles world_maps agents relationships event_store
       snapshots agent_snapshots].
  split; [|split].
  - intros s. rewrite filter_In, negb_true_iff, N.eqb_neq. reflexivity.
  - intros r. rewrite filter_In, kept_true. split.
    + intros [Hin H]. split; [assumption|]. intros E. apply H. subst k.
      specialize (fk_agent_snapshots_snapshot0 r Hin). unfold snapshot_ids in *.
      apply in_map_iff in fk_agent_snapshots_snapshot0.
      destruct fk_agent_snapshots_snapshot0 as [s [E Hs]].
      apply in_map_iff. exists s. split; [assumption|].
      apply filter_In. split; [assumption | now apply N.eqb_eq].
    + intros [Hin Hn]. split; [assumption|].
      intros Hg. apply in_map_iff in Hg.
      destruct Hg as [s [E Hs]]. apply filter_In in Hs. destruct Hs as [_ Hs].
      apply N.eqb_eq in Hs. congruence.
  - repeat split.
Qed.

Lemma delete_snapshot_cascade_witness :
  agent_snapshots (delete_snapshot 210 Examples.db_closed) = []
  /\ event_store (delete_snapshot 210 Examples.db_closed)
     = event_store Examples.db_closed.
Proof.
  pose proof (delete_snapshot_cascade Examples.db_closed 210 db_closed_reachable)
    as H.
  cbv zeta in H. destruct H as (_ & Hcap & _ & _ & _ & _ & _ & Hev).
  split; [|exact Hev].
  destruct (agent_snapshots (delete_snapshot 210 Examples.db_closed))
    as [|r l] eqn:E; [reflexivity|].
  destruct (proj1 (Hcap r) (or_introl eq_refl)) as [Hin Hn].
  vm_compute in Hin. destruct Hin as [<- | []]. now exfalso.
Defined.

(** ** More of the schema: the default sequence number *)

(** A writer that leaves [seq_in_tick] out writes sequence number 0: where a
    tick of a world holds an event with sequence number 0, a second event of
    that tick written that way is refused by [uq_events_tick_seq]. *)
Theorem second_default_sequence_refused (db : DB) (e0 : EventStore.t)
  (event_id : uuid) (event_type : string) (actor target : option uuid)
  (x y : option Z) (payload : json) (caused_by : option uuid)
  (schema_version : option Z) (now : datetime) :
  let e :=
    EventStore.new event_id (EventStore.world_id e0) (EventStore.tick e0) None
      event_type actor target x y payload caused_by schema_version now in
  In e0 (event_store db) ->
  EventStore.seq_in_tick e0 = 0 ->
  EventStore.well_typed e = true ->
  ~ In event_id (event_ids db) ->
  execute db (InsertEvent e) = Err (AlreadyExists "uq_events_tick_seq")
  /\ after db (InsertEvent e) = db.
Proof.
  intros e H0 Hs Ht Hn.
  assert (E : insert_event db e = Err (AlreadyExists "uq_events_tick_seq")).
  { unfold insert_event. rewrite Ht. cbn [check bind Ok Err].
    change (EventStore.ck_events_seq_nonneg e) with true. cbn [check bind Ok Err].
    change (EventStore.event_id e) with event_id.
    apply not_memN_In in Hn. rewrite Hn. cbn [negb check bind Ok Err].
    assert (Hin : mem eqb_uzz (EventStore.uq_events_tick_seq e)
                    (map EventStore.uq_events_tick_seq (event_store db)) = true).
    { apply (mem_In eqb_uzz eqb_uzz_eq). apply in_map_iff. exists e0.
      split; [|assumption]. unfold EventStore.uq_events_tick_seq. cbn.
      now rewrite Hs. }
    rewrite Hin. reflexivity. }
  split; [exact E|]. eapply after_refused. exact E.
Qed.

Lemma second_default_sequence_refused_witness :
  execute Examples.db_actor
    (InsertEvent
       (EventStore.new 107 1 1 None "rest" None None None None "{}" None None 0))
  = Err (AlreadyExists "uq_events_tick_seq").
Proof.
  apply (second_default_sequence_refused Examples.db_actor Examples.event_moveA
           107 "rest" None None None None "{}" None None 0).
  - vm_compute. now left.
  - reflexivity.
  - reflexivity.
  - vm_compute. intros [H|[]]. discriminate H.
Defined.

(** ** The schema as a whole *)

(** Every store that accepted statements build from the empty store has
    rows of the declared column types, no two rows with one primary key, no
    two events with one [(world_id, tick, seq_in_tick)], no negative sequence
    number, no two snapshots with one [(world_id, tick)], and no foreign key
    without the row it names. *)
Theorem accepted_statements_keep_schema (db : DB) : reachable db -> valid db.
Proof.
  induction 1 as [|db db' s _ IH H]; [apply empty_valid|].
  destruct s; eapply execute_valid; eassumption.
Qed.

Lemma accepted_statements_keep_schema_witness : valid Examples.db_closed.
Proof.
  exact (accepted_statements_keep_schema Examples.db_closed db_closed_reachable).
Defined.

End SchemaFacts.

(** ** More of model/test.py: moves compose *)

(** A move and the opposite move give the agent back. *)
Theorem move_back (A B : Type) (a : Model.Agent) (actor : A) (actor' : B) :
  Model.move (Model.move a actor "up") actor' "down" = a
  /\ Model.move (Model.move a actor "down") actor' "up" = a
  /\ Model.move (Model.move a actor "left") actor' "right" = a
  /\ Model.move (Model.move a actor "right") actor' "left" = a.
Proof.
  destruct a as [i n ax ay g h yr b].
  unfold Model.move; cbn; unfold Model.set_x, Model.set_y; cbn.
  repeat split; f_equal; lia.
Qed.

(** Two moves reach the same agent in either order. *)
Theorem move_commute (A B : Type) (a : Model.Agent) (actor : A) (actor' : B)
  (d1 d2 : string) :
  Model.move (Model.move a actor d1) actor' d2
  = Model.move (Model.move a actor' d2) actor d1.
Proof.
  destruct a as [i n ax ay g h yr b]. unfold Model.move.
  destruct (String.eqb d1 "up"), (String.eqb d1 "down"),
    (String.eqb d1 "left"), (String.eqb d1 "right"),
    (String.eqb d2 "up"), (String.eqb d2 "down"),
    (String.eqb d2 "left"), (String.eqb d2 "right");
    unfold Model.set_x, Model.set_y; cbn; f_equal; lia.
Qed.

(** ** More of view/topdown.py: what the bounds hold *)

Section BoundsFacts.

Import Py TopDown.

Lemma Zmin_assoc_rev (a b c : Z) : Z.min (Z.min a b) c = Z.min a (Z.min b c).
Proof. lia. Qed.

Lemma Zmax_assoc_rev (a b c : Z) : Z.max (Z.max a b) c = Z.max a (Z.max b c).
Proof. lia. Qed.

Lemma min_list_le (t : list Z) : forall h z, In z (h :: t) -> min_list h t <= z.
Proof.
  unfold min_list. induction t as [|x t IH]; intros h z Hz; simpl in *.
  - destruct Hz as [<- | []]. lia.
  - assert (Hle : fold_left Z.min t (Z.min h x) <= Z.min h x)
      by (apply IH; now left).
    destruct Hz as [<- | [<- | Hz]]; [lia | lia |].
    apply IH. now right.
Qed.

Lemma max_list_ge (t : list Z) : forall h z, In z (h :: t) -> z <= max_list h t.
Proof.
  unfold max_list. induction t as [|x t IH]; intros h z Hz; simpl in *.
  - destruct Hz as [<- | []]. lia.
  - assert (Hle : Z.max h x <= fold_left Z.max t (Z.max h x))
      by (apply IH; now left).
    destruct Hz as [<- | [<- | Hz]]; [lia | lia |].
    apply IH. now right.
Qed.

Lemma widen_wider lo hi lo' hi' :
  widen lo hi = (lo', hi') -> lo' <= lo /\ hi <= hi'.
Proof. unfold widen. destruct (lo =? hi); intros [= <- <-]; lia. Qed.

(** With an [int] margin that is not negative, no entity lies outside the
    bounds. *)
Theorem compute_bounds_contains (self : TopDownVisualizer)
  (entities : list entity) (m : Z) :
  margin self = PyInt m -> 0 <= m ->
  exists min_x max_x min_y max_y,
    compute_bounds self entities
    = Ok (PyInt min_x, PyInt max_x, PyInt min_y, PyInt max_y)
    /\ forall e, In e entities ->
                 min_x <= x_of e <= max_x /\ min_y <= y_of e <= max_y.
Proof.
  intros Hm Hpos. destruct entities as [|e es].
  - exists 0, 10, 0, 10. split; [reflexivity | intros e []].
  - unfold compute_bounds. rewrite Hm.
    destruct (widen (min_list (x_of e) (map x_of es)) (max_list (x_of e) (map x_of es)))
      as [lx hx] eqn:Ex.
    destruct (widen (min_list (y_of e) (map y_of es)) (max_list (y_of e) (map y_of es)))
      as [ly hy] eqn:Ey.
    pose proof (widen_lt _ _ _ _ (min_le_max _ _ _ (Z.le_refl _)) Ex) as Hx.
    pose proof (widen_lt _ _ _ _ (min_le_max _ _ _ (Z.le_refl _)) Ey) as Hy.
    apply widen_wider in Ex, Ey.
    cbn. eexists _, _, _, _. split; [reflexivity|].
    intros e' He'.
    assert (Hinx : In (x_of e') (x_of e :: map x_of es))
      by (change (In (x_of e') (map x_of (e :: es))); now apply in_map).
    assert (Hiny : In (y_of e') (y_of e :: map y_of es))
      by (change (In (y_of e') (map y_of (e :: es))); now apply in_map).
    pose proof (min_list_le _ _ _ Hinx). pose proof (max_list_ge _ _ _ Hinx).
    pose proof (min_list_le _ _ _ Hiny). pose proof (max_list_ge _ _ _ Hiny).
    nia.
Qed.

Lemma compute_bounds_contains_witness :
  exists min_x max_x min_y max_y,
    compute_bounds (init 800 600 (PyInt 1)) Examples.demo
    = Ok (PyInt min_x, PyInt max_x, PyInt min_y, PyInt max_y)
    /\ forall e, In e Examples.demo ->
                 min_x <= x_of e <= max_x /\ min_y <= y_of e <= max_y.
Proof.
  apply (compute_bounds_contains (init 800 600 (PyInt 1)) Examples.demo 1);
    [reflexivity | lia].
Defined.

Lemma fold_left_absorb (f : Z -> Z -> Z) :
  (forall a b c, f (f a b) c = f a (f b c)) ->
  forall t h x, f x (fold_left f t h) = fold_left f t (f x h).
Proof.
  intros Hassoc. induction t as [|y t IH]; intros h x; simpl; [reflexivity|].
  rewrite IH. now rewrite Hassoc.
Qed.

(** The least and the greatest of a list that is not empty do not depend on
    the order of the list. *)
Lemma fold_left_permutation (f : Z -> Z -> Z) :
  (forall a b c, f (f a b) c = f a (f b c)) -> (forall a b, f a b = f b a) ->
  forall l l', Permutation l l' ->
  match l, l' with
  | h :: t, h' :: t' => fold_left f t h = fold_left f t' h'
  | [], [] => True
  | _, _ => False
  end.
Proof.
  intros Hassoc Hcomm l l' Hp.
  induction Hp as [|x l l' Hp IH|x y l|l l' l'' _ IH1 _ IH2].
  - exact I.
  - destruct l as [|h t], l' as [|h' t']; try contradiction.
    + reflexivity.
    + simpl. now rewrite <- !(fold_left_absorb f Hassoc), IH.
  - simpl. now rewrite (Hcomm y x).
  - destruct l as [|h t], l' as [|h' t'], l'' as [|h'' t'']; try contradiction.
    + exact I.
    + congruence.
Qed.

(** [compute_bounds] does not depend on the order of the entities, whatever
    the margin. *)
Theorem compute_bounds_permutation (self : TopDownVisualizer)
  (entities entities' : list entity) :
  Permutation entities entities' ->
  compute_bounds self entities = compute_bounds self entities'.
Proof.
  intros Hp.
  assert (Hfold : forall f col,
             (forall a b c, f (f a b) c = f a (f b c)) ->
             (forall a b : Z, f a b = f b a) ->
             match map col entities, map col entities' with
             | h :: t, h' :: t' => fold_left f t h = fold_left f t' h'
             | [], [] => True
             | _, _ => False
             end).
  { intros f col Ha Hc. apply fold_left_permutation; try assumption.
    now apply Permutation_map. }
  pose proof (Hfold Z.min x_of Zmin_assoc_rev Z.min_comm) as Hx.
  pose proof (Hfold Z.max x_of Zmax_assoc_rev Z.max_comm) as HX.
  pose proof (Hfold Z.min y_of Zmin_assoc_rev Z.min_comm) as Hy.
  pose proof (Hfold Z.max y_of Zmax_assoc_rev Z.max_comm) as HY.
  destruct entities as [|e es], entities' as [|e' es']; try contradiction.
  - reflexivity.
  - simpl in Hx, HX, Hy, HY.
    unfold compute_bounds, min_list, max_list.
    now rewrite Hx, HX, Hy, HY.
Qed.

Lemma compute_bounds_permutation_witness :
  compute_bounds default (rev Examples.demo) = compute_bounds default Examples.demo.
Proof.
  apply (compute_bounds_permutation default (rev Examples.demo) Examples.demo).
  apply Permutation_sym, Permutation_rev.
Defined.

End BoundsFacts.
